(** * The Nachos file system controller (code/filesys/filesys.cc)

    A shallow embedding of [FileSystem] and of the collaborators it drives
    (free-sector bitmap, file headers, directories, open-file objects),
    followed by the properties of its operations.

    An operation is a function from the state of the controller to a result
    and a new state.  C [int] values are integers in [Z]; the one place
    where the controller does arithmetic on them ([currentPosition += ...])
    goes through [int_add], the 32-bit two's complement addition.  Nullable
    [char *] arguments are [option]s.  [new] does not yield [NULL], so the
    branches that only test its result are left out, and so is the test of
    [currentThread] against [NULL]: the state always has a current thread.
    Output on the console is not part of the state. *)

From Stdlib Require Import ZArith Lia Ascii.
From stdpp Require Import gmap strings list.

Open Scope Z_scope.

(** ** Constants of the machine *)

(** The constants that filesys.cc takes from headers outside this file
    (disk.h, bitmap.h, filehdr.h, directory.h, filesys.h). *)
Class Machine := {
  SectorSize : Z;
  NumSectors : Z;
  BitsInByte : Z;
  NumDirect : Z;
  DirectoryEntrySize : Z;
  MAX_OPEN_FILES : nat;
  INVALID_FILE_HANDLE : Z
}.

Definition FreeMapSector : Z := 0.
Definition DirectorySector : Z := 1.
Definition NumDirEntries : nat := 10.

Definition FreeMapFileSize `{Machine} : Z := Z.quot NumSectors BitsInByte.
Definition DirectoryFileSize `{Machine} : Z := DirectoryEntrySize * Z.of_nat NumDirEntries.

(** 32-bit signed addition, as [+=] on an [int] behaves on the machine. *)
Definition int_wrap (z : Z) : Z := (z + 2 ^ 31) mod 2 ^ 32 - 2 ^ 31.
Definition int_add (a b : Z) : Z := int_wrap (a + b).

(** [sector < 0 || sector >= NumSectors], negated. *)
Definition validSector `{Machine} (s : Z) : bool := (0 <=? s) && (s <? NumSectors).

(** ** Data *)

Inductive EntryType := FILE_TYPE | DIR_TYPE.

#[global] Instance EntryType_eq_dec : EqDecision EntryType.
Proof. solve_decision. Defined.

Module DirectoryEntry.
(** Modelled from the spec: directory.h is not part of the sources.  Section
    3: an entry is a name, a sector and a type, in a slot that is active or
    not. *)
Record t := mk { inUse : bool; sector : Z; name : string; type : EntryType }.
Definition unused : t := mk false 0 EmptyString FILE_TYPE.
End DirectoryEntry.

Module FileHeader.
(** Modelled from the spec: filehdr.h is not part of the sources.  Section
    3: a header records the byte length of the file and the ordered list of
    the sectors that hold its data. *)
Record t := mk { numBytes : Z; numSectors : Z; dataSectors : list Z }.
Definition fresh : t := mk 0 0 [].
End FileHeader.

(** A bitmap is its array of bits, [true] = in use; a directory is its table. *)
Abbreviation BitMap := (list bool) (only parsing).
Abbreviation Directory := (list DirectoryEntry.t) (only parsing).

(** ** The block device *)

(** Modelled from the spec: the byte serialisation of bitmap, header and
    directory records is outside filesys.cc; the content of a file is one of
    the three kinds of record the system stores. *)
Inductive FileData :=
| DataBitMap (bits : list bool)
| DataDirectory (table : list DirectoryEntry.t)
| DataBytes (bytes : list Z).

(** A write request: a header into its sector, or a content into the file
    whose header is at the sector. *)
Inductive DiskWrite :=
| WriteHeader (s : Z) (h : FileHeader.t)
| WriteData (s : Z) (c : FileData).

(** Modelled from the spec: the raw device is outside filesys.cc; section 6
    gives it as sector reads and writes over [NumSectors] sectors.  A header
    lives in the sector it is written to; the content of a file is addressed
    by the sector of its header.  Every write request is appended to
    [writes], so that the absence and the order of device writes can be
    stated. *)
Record Disk := mkDisk {
  headers : gmap Z FileHeader.t;
  contents : gmap Z FileData;
  writes : list DiskWrite
}.

Definition blankDisk : Disk := mkDisk ∅ ∅ [].

(** Modelled from the spec: the device has the sectors [0 .. NumSectors-1]
    and no others, so nothing is read from a sector outside this range. *)
Definition readHeader `{Machine} (s : Z) (d : Disk) : option FileHeader.t :=
  if validSector s then headers d !! s else None.

(** Modelled from the spec: as [readHeader], for the content of the file
    whose header is at [s]. *)
Definition readData `{Machine} (s : Z) (d : Disk) : option FileData :=
  if validSector s then contents d !! s else None.

(** Modelled from the spec: a write request is recorded, and stores the
    header when the sector is one of the device. *)
Definition writeHeader `{Machine} (s : Z) (h : FileHeader.t) (d : Disk) : Disk :=
  mkDisk (if validSector s then <[s := h]> (headers d) else headers d)
         (contents d)
         (writes d ++ [WriteHeader s h]).

(** Modelled from the spec: as [writeHeader], for the content of the file
    whose header is at [s]. *)
Definition writeData `{Machine} (s : Z) (c : FileData) (d : Disk) : Disk :=
  mkDisk (headers d)
         (if validSector s then <[s := c]> (contents d) else contents d)
         (writes d ++ [WriteData s c]).

(** Modelled from the spec: a write request for the record [requested] that
    goes through a file of fixed length, and leaves [stored] as the content
    of the file: the request is recorded as it was made. *)
Definition transferData `{Machine} (s : Z) (stored requested : FileData) (d : Disk) : Disk :=
  mkDisk (headers d)
         (if validSector s then <[s := stored]> (contents d) else contents d)
         (writes d ++ [WriteData s requested]).

(** Modelled from the spec: a file is of the fixed length its header records
    (section 3), and a transfer through it stays inside that length.  Of
    [count] records of [size] bytes each, a transfer through a file of [len]
    bytes reaches all of them when they fit, and otherwise those that lie
    wholly inside the file. *)
Definition recordsWithin (len size : Z) (count : nat) : nat :=
  if Z.of_nat count * size <=? len then count else Z.to_nat (len / size).

(** Modelled from the spec: the same for the bits of a map, which take
    [count / BitsInByte] bytes, as [FreeMapFileSize] has it for the map of
    all sectors. *)
Definition bitsWithin `{Machine} (len : Z) (count : nat) : nat :=
  if Z.quot (Z.of_nat count) BitsInByte <=? len then count
  else Z.to_nat (len * BitsInByte).

(** Modelled from the spec: the table and the map that the file whose header
    is at [s] holds; a file that holds another kind of record holds no entry
    and no bit in use. *)
Definition storedTable `{Machine} (s : Z) (d : Disk) : list DirectoryEntry.t :=
  match readData s d with
  | Some (DataDirectory t) => t
  | _ => []
  end.

(** Modelled from the spec: the same for the map. *)
Definition storedBits `{Machine} (s : Z) (d : Disk) : list bool :=
  match readData s d with
  | Some (DataBitMap bits) => bits
  | _ => []
  end.

(** ** BitMap (bitmap.cc is not part of the sources) *)

(** Modelled from the spec: a new map has every bit clear. *)
Definition BitMap_new (nitems : Z) : BitMap := replicate (Z.to_nat nitems) false.

(** Modelled from the spec: setting one bit; a sector outside the map leaves
    the map as it is. *)
Definition BitMap_set (which : Z) (b : bool) (m : BitMap) : BitMap :=
  if (0 <=? which) && (which <? Z.of_nat (length m))
  then <[Z.to_nat which := b]> m else m.

(** Modelled from the spec: section 4.1, [Mark(sector)] reserves. *)
Definition BitMap_Mark (which : Z) (m : BitMap) : BitMap := BitMap_set which true m.

(** Modelled from the spec: section 4.1, [Clear(sector)] frees. *)
Definition BitMap_Clear (which : Z) (m : BitMap) : BitMap := BitMap_set which false m.

(** Modelled from the spec: whether a sector is in use. *)
Definition BitMap_Test (which : Z) (m : BitMap) : bool :=
  (0 <=? which) && default false (m !! Z.to_nat which).

(** Modelled from the spec: section 4.1, [Find] yields the first unused
    sector, or -1 when there is none; the controller "allocates a header
    sector" through it, so the sector found is reserved by the same call. *)
Definition BitMap_Find (m : BitMap) : Z * BitMap :=
  match list_find (λ b, b = false) m with
  | Some (i, _) => (Z.of_nat i, <[i := true]> m)
  | None => (-1, m)
  end.

(** Modelled from the spec: the number of free sectors, which [Allocate]
    compares with the sectors it needs. *)
Definition BitMap_NumClear (m : BitMap) : Z :=
  Z.of_nat (length (filter (λ b, b = false) m)).

(** ** OpenFile and the persistence of headers and bitmaps *)

Module OpenFile.
(** Modelled from the spec: openfile.h is not part of the sources.  An open
    file is bound to the sector of its header, which it loads when it is
    constructed, and carries its own seek position. *)
Record t := mk { hdrSector : Z; hdr : FileHeader.t; seekPosition : Z }.
End OpenFile.

(** Modelled from the spec: section 4.2, [FetchFrom(sector)] loads the
    header stored at the sector. *)
Definition FileHeader_FetchFrom `{Machine} (s : Z) (d : Disk) : FileHeader.t :=
  default FileHeader.fresh (readHeader s d).

(** Modelled from the spec: section 4.2, [WriteBack(sector)] persists the
    header at the sector. *)
Definition FileHeader_WriteBack `{Machine} (s : Z) (h : FileHeader.t) (d : Disk) : Disk :=
  writeHeader s h d.

(** Modelled from the spec: [new OpenFile(sector)], which reads the header
    off the disk. *)
Definition OpenFile_new `{Machine} (s : Z) (d : Disk) : OpenFile.t :=
  OpenFile.mk s (FileHeader_FetchFrom s d) 0.

(** Modelled from the spec: section 4.1, [FetchFrom] loads the bitmap from
    its file into a map of the size of the receiver; the transfer goes
    through the open file, so the bits beyond the length of the file are
    those the receiver had. *)
Definition BitMap_FetchFrom `{Machine} (m : BitMap) (file : OpenFile.t) (d : Disk) : BitMap :=
  let k := bitsWithin (FileHeader.numBytes (OpenFile.hdr file)) (length m) in
  take k (resize (length m) false (storedBits (OpenFile.hdrSector file) d)) ++ drop k m.

(** Modelled from the spec: section 4.1, [WriteBack] persists the bitmap
    into its file; the transfer goes through the open file, so the bits
    beyond the length of the file are not stored. *)
Definition BitMap_WriteBack `{Machine} (m : BitMap) (file : OpenFile.t) (d : Disk) : Disk :=
  let k := bitsWithin (FileHeader.numBytes (OpenFile.hdr file)) (length m) in
  transferData (OpenFile.hdrSector file)
    (DataBitMap (take k m
                 ++ drop k (resize (length m) false (storedBits (OpenFile.hdrSector file) d))))
    (DataBitMap m) d.

(** ** FileHeader (filehdr.cc is not part of the sources) *)

(** Modelled from the spec: section 4.2, [ceil(numBytes / SectorSize)]. *)
Definition divRoundUp (n s : Z) : Z := n / s + (if 0 <? n mod s then 1 else 0).

(** Modelled from the spec: the loop of [Allocate], which reserves the
    sectors one by one. *)
Fixpoint BitMap_FindN (n : nat) (m : BitMap) : list Z * BitMap :=
  match n with
  | O => ([], m)
  | S n' =>
      let '(s, m1) := BitMap_Find m in
      let '(rest, m2) := BitMap_FindN n' m1 in
      (s :: rest, m2)
  end.

(** Modelled from the spec: section 4.2, [Allocate] fails, leaving the
    allocator as it was, when the free sectors are too few or the size
    exceeds what the fixed sector list can hold; otherwise it marks each
    chosen sector and records the list. *)
Definition FileHeader_Allocate `{Machine} (freeMap : BitMap) (fileSize : Z)
  : bool * FileHeader.t * BitMap :=
  let numSectors := divRoundUp fileSize SectorSize in
  if (NumDirect <? numSectors) || (BitMap_NumClear freeMap <? numSectors)
  then (false, FileHeader.mk fileSize numSectors [], freeMap)
  else
    let '(secs, m') := BitMap_FindN (Z.to_nat numSectors) freeMap in
    (true, FileHeader.mk fileSize numSectors secs, m').

(** Modelled from the spec: section 4.2, [Deallocate] clears every recorded
    sector. *)
Definition FileHeader_Deallocate (h : FileHeader.t) (freeMap : BitMap) : BitMap :=
  foldl (λ m s, BitMap_Clear s m) freeMap (FileHeader.dataSectors h).

(** ** Directory (directory.cc is not part of the sources) *)

(** Modelled from the spec: a new directory of [size] slots, none active. *)
Definition Directory_new (size : nat) : Directory := replicate size DirectoryEntry.unused.

(** Modelled from the spec: section 4.3, the scan of the active entries for
    an exact name match, on which [Find], [Add], [Remove] and
    [GetEntryType] rest. *)
Definition Directory_FindIndex (name : string) (table : Directory)
  : option (nat * DirectoryEntry.t) :=
  list_find (λ e, DirectoryEntry.inUse e = true ∧ DirectoryEntry.name e = name) table.

(** Modelled from the spec: section 4.3, [Find(name)] gives the sector of the
    matching entry, or -1. *)
Definition Directory_Find (name : string) (table : Directory) : Z :=
  match Directory_FindIndex name table with
  | Some (_, e) => DirectoryEntry.sector e
  | None => -1
  end.

(** Modelled from the spec: section 4.3, [GetEntryType(name)] gives FILE,
    DIR or not found. *)
Definition Directory_GetEntryType (name : string) (table : Directory) : option EntryType :=
  match Directory_FindIndex name table with
  | Some (_, e) => Some (DirectoryEntry.type e)
  | None => None
  end.

(** Modelled from the spec: section 4.3, [Add] fails if the name is present
    or no slot is free, and otherwise fills the first free slot. *)
Definition Directory_Add (name : string) (newSector : Z) (ty : EntryType) (table : Directory)
  : bool * Directory :=
  match Directory_FindIndex name table with
  | Some _ => (false, table)
  | None =>
      match list_find (λ e, DirectoryEntry.inUse e = false) table with
      | Some (i, _) => (true, <[i := DirectoryEntry.mk true newSector name ty]> table)
      | None => (false, table)
      end
  end.

(** Modelled from the spec: section 4.3, [Remove] marks the matching entry
    inactive, and reports an absent name. *)
Definition Directory_Remove (name : string) (table : Directory) : bool * Directory :=
  match Directory_FindIndex name table with
  | Some (i, e) =>
      (true, <[i := DirectoryEntry.mk false (DirectoryEntry.sector e)
                      (DirectoryEntry.name e) (DirectoryEntry.type e)]> table)
  | None => (false, table)
  end.

(** Modelled from the spec: section 4.3, [FetchFrom] loads the entries,
    inactive slots included, from the directory's file into a table of the
    size of the receiver; the transfer goes through the open file, so the
    entries beyond the length of the file are those the receiver had. *)
Definition Directory_FetchFrom `{Machine} (table : Directory) (file : OpenFile.t) (d : Disk)
  : Directory :=
  let k := recordsWithin (FileHeader.numBytes (OpenFile.hdr file)) DirectoryEntrySize
             (length table) in
  take k (resize (length table) DirectoryEntry.unused (storedTable (OpenFile.hdrSector file) d))
  ++ drop k table.

(** Modelled from the spec: section 4.3, [WriteBack] persists the entries
    into the directory's file; the transfer goes through the open file, so
    the entries beyond the length of the file are not stored. *)
Definition Directory_WriteBack `{Machine} (table : Directory) (file : OpenFile.t) (d : Disk)
  : Disk :=
  let k := recordsWithin (FileHeader.numBytes (OpenFile.hdr file)) DirectoryEntrySize
             (length table) in
  transferData (OpenFile.hdrSector file)
    (DataDirectory
       (take k table
        ++ drop k (resize (length table) DirectoryEntry.unused
                     (storedTable (OpenFile.hdrSector file) d))))
    (DataDirectory table) d.

(** The active entries of a table, as [List] enumerates them. *)
Definition Directory_entries (table : Directory) : list (string * Z * EntryType) :=
  (λ e, (DirectoryEntry.name e, DirectoryEntry.sector e, DirectoryEntry.type e))
    <$> filter (λ e, DirectoryEntry.inUse e = true) table.

(** ** The open-file table and the state of the controller *)

Definition FileHandle := Z.
Definition Buffer := list Z.

Module OpenFileTableEntry.
(** Modelled from the spec: filesys.h is not part of the sources; these are
    the fields of a slot that filesys.cc reads and writes. *)
Record t := mk {
  inUse : bool;
  openFile : option OpenFile.t;
  sector : Z;
  filename : string;
  currentPosition : Z
}.
(** The values [InitializeOpenFilesTable] and [Close] give a slot. *)
Definition free : t := mk false None (-1) EmptyString 0.
End OpenFileTableEntry.

(** The object's members, the device it sits on, and the current directory
    of [currentThread]. *)
Record FileSystem := mkFS {
  disk : Disk;
  freeMapFile : OpenFile.t;
  directoryFile : OpenFile.t;
  openFilesTable : list OpenFileTableEntry.t;
  currentDirectorySector : Z;
  threadDirectory : Z
}.

Definition set_disk (d : Disk) (fs : FileSystem) : FileSystem :=
  mkFS d (freeMapFile fs) (directoryFile fs) (openFilesTable fs)
       (currentDirectorySector fs) (threadDirectory fs).

Definition set_table (t : list OpenFileTableEntry.t) (fs : FileSystem) : FileSystem :=
  mkFS (disk fs) (freeMapFile fs) (directoryFile fs) t
       (currentDirectorySector fs) (threadDirectory fs).

(** The I/O operations of an open-file object (openfile.cc is not part of
    the sources), taken as a parameter: the controller only delegates to
    them.  Sequential ones may move the object's own seek position, writes
    reach the device. *)
Class OpenFileIO := {
  OpenFile_Read : OpenFile.t → Disk → Z → Z * Buffer * OpenFile.t;
  OpenFile_Write : OpenFile.t → Disk → Buffer → Z → Z * OpenFile.t * Disk;
  OpenFile_ReadAt : OpenFile.t → Disk → Z → Z → Z * Buffer;
  OpenFile_WriteAt : OpenFile.t → Disk → Buffer → Z → Z → Z * Disk
}.

Section Controller.
Context `{M : Machine} `{IO : OpenFileIO}.

Definition InitializeOpenFilesTable : list OpenFileTableEntry.t :=
  replicate MAX_OPEN_FILES OpenFileTableEntry.free.

Definition FindFreeSlot (fs : FileSystem) : FileHandle :=
  match list_find (λ e, OpenFileTableEntry.inUse e = false)
                  (take MAX_OPEN_FILES (openFilesTable fs)) with
  | Some (i, _) => Z.of_nat i
  | None => INVALID_FILE_HANDLE
  end.

(** [openFilesTable[handle]]. *)
Definition slot (handle : FileHandle) (fs : FileSystem) : OpenFileTableEntry.t :=
  default OpenFileTableEntry.free (openFilesTable fs !! Z.to_nat handle).

Definition IsValidHandle (handle : FileHandle) (fs : FileSystem) : bool :=
  (0 <=? handle) && (handle <? Z.of_nat MAX_OPEN_FILES)
  && match openFilesTable fs !! Z.to_nat handle with
     | Some e => OpenFileTableEntry.inUse e
                 && bool_decide (OpenFileTableEntry.openFile e ≠ None)
     | None => false
     end.

Definition SetCurrentDirectory (sector : Z) (fs : FileSystem) : FileSystem :=
  mkFS (disk fs) (freeMapFile fs) (directoryFile fs) (openFilesTable fs)
       (currentDirectorySector fs) sector.

Definition GetCurrentDirectory (fs : FileSystem) : Z := threadDirectory fs.

(** [openFilesTable[file].openFile = f; openFilesTable[file].currentPosition = pos]. *)
Definition update_slot (file : FileHandle) (f : OpenFile.t) (pos : Z) (fs : FileSystem)
  : FileSystem :=
  let e := slot file fs in
  set_table (<[Z.to_nat file :=
               OpenFileTableEntry.mk (OpenFileTableEntry.inUse e) (Some f)
                 (OpenFileTableEntry.sector e) (OpenFileTableEntry.filename e) pos]>
             (openFilesTable fs)) fs.

Definition Read (file : FileHandle) (into : option Buffer) (numBytes : Z) (fs : FileSystem)
  : Z * Buffer * FileSystem :=
  if negb (IsValidHandle file fs) then (0, [], fs)
  else match into with
  | None => (0, [], fs)
  | Some _ =>
      match OpenFileTableEntry.openFile (slot file fs) with
      | None => (0, [], fs)
      | Some f =>
          let '(bytesRead, data, f') := OpenFile_Read f (disk fs) numBytes in
          let pos := int_add (OpenFileTableEntry.currentPosition (slot file fs)) bytesRead in
          (bytesRead, data, update_slot file f' pos fs)
      end
  end.

Definition Write (file : FileHandle) (from : option Buffer) (numBytes : Z) (fs : FileSystem)
  : Z * FileSystem :=
  if negb (IsValidHandle file fs) then (0, fs)
  else match from with
  | None => (0, fs)
  | Some buf =>
      match OpenFileTableEntry.openFile (slot file fs) with
      | None => (0, fs)
      | Some f =>
          let '(bytesWritten, f', d') := OpenFile_Write f (disk fs) buf numBytes in
          let pos := int_add (OpenFileTableEntry.currentPosition (slot file fs)) bytesWritten in
          (bytesWritten, update_slot file f' pos (set_disk d' fs))
      end
  end.

Definition ReadAt (file : FileHandle) (into : option Buffer) (numBytes position : Z)
  (fs : FileSystem) : Z * Buffer * FileSystem :=
  if negb (IsValidHandle file fs) then (0, [], fs)
  else match into with
  | None => (0, [], fs)
  | Some _ =>
      match OpenFileTableEntry.openFile (slot file fs) with
      | None => (0, [], fs)
      | Some f =>
          let '(bytesRead, data) := OpenFile_ReadAt f (disk fs) numBytes position in
          let pos := int_add (OpenFileTableEntry.currentPosition (slot file fs)) bytesRead in
          (bytesRead, data, update_slot file f pos fs)
      end
  end.

Definition WriteAt (file : FileHandle) (from : option Buffer) (numBytes position : Z)
  (fs : FileSystem) : Z * FileSystem :=
  if negb (IsValidHandle file fs) then (0, fs)
  else match from with
  | None => (0, fs)
  | Some buf =>
      match OpenFileTableEntry.openFile (slot file fs) with
      | None => (0, fs)
      | Some f =>
          let '(bytesWritten, d') := OpenFile_WriteAt f (disk fs) buf numBytes position in
          (bytesWritten, set_disk d' fs)
      end
  end.

Definition Close (file : FileHandle) (fs : FileSystem) : FileSystem :=
  if negb (IsValidHandle file fs) then fs
  else set_table (<[Z.to_nat file := OpenFileTableEntry.free]> (openFilesTable fs)) fs.

(** [for (i = first; i < first + n; i++) if (openFilesTable[i].inUse) Close(i);] *)
Fixpoint CloseAll_from (n : nat) (first : Z) (fs : FileSystem) : FileSystem :=
  match n with
  | O => fs
  | S n' =>
      let fs' := if OpenFileTableEntry.inUse (slot first fs) then Close first fs else fs in
      CloseAll_from n' (first + 1) fs'
  end.

Definition CloseAll (fs : FileSystem) : FileSystem :=
  CloseAll_from MAX_OPEN_FILES 0 fs.

(** [name == NULL || strlen(name) == 0]. *)
Definition nullOrEmpty (name : option string) : bool :=
  match name with
  | None => true
  | Some n => bool_decide (n = EmptyString)
  end.

Definition ChangeDirectory (name : option string) (fs : FileSystem) : bool * FileSystem :=
  match name with
  | None => (false, fs)
  | Some n =>
    if nullOrEmpty name then (false, fs) else
    let currentSector := GetCurrentDirectory fs in
    if negb (validSector currentSector) then (false, fs) else
    let currentDirFile := OpenFile_new currentSector (disk fs) in
    let currentDirectory :=
      Directory_FetchFrom (Directory_new NumDirEntries) currentDirFile (disk fs) in
    let sector := Directory_Find n currentDirectory in
    if sector =? -1 then (false, fs) else
    if negb (bool_decide (Directory_GetEntryType n currentDirectory = Some DIR_TYPE))
    then (false, fs) else
    if negb (validSector sector) then (false, fs) else
    (true, SetCurrentDirectory sector fs)
  end.

(** [name] is dereferenced without a check, so it is a string here; the
    thread whose directory is read is the one of the state. *)
Definition CreateDirectory (name : string) (fs : FileSystem) : bool * FileSystem :=
  let parentSector := threadDirectory fs in
  if parentSector <? 0 then (false, fs) else
  let parentDirectoryFile := OpenFile_new parentSector (disk fs) in
  let parentDirectory :=
    Directory_FetchFrom (Directory_new NumDirEntries) parentDirectoryFile (disk fs) in
  if negb (Directory_Find name parentDirectory =? -1) then (false, fs) else
  let freeMap := BitMap_FetchFrom (BitMap_new NumSectors) (freeMapFile fs) (disk fs) in
  let '(sector, freeMap) := BitMap_Find freeMap in
  if sector =? -1 then (false, fs) else
  let '(added, parentDirectory) := Directory_Add name sector DIR_TYPE parentDirectory in
  if negb added then (false, fs) else
  let '(ok, hdr, freeMap) := FileHeader_Allocate freeMap DirectoryFileSize in
  if negb ok then (false, fs) else
  let d := FileHeader_WriteBack sector hdr (disk fs) in
  let newDirectory := Directory_new NumDirEntries in
  let newDirectory := snd (Directory_Add "." sector DIR_TYPE newDirectory) in
  let newDirectory := snd (Directory_Add ".." parentSector DIR_TYPE newDirectory) in
  let newDirFile := OpenFile_new sector d in
  let d := Directory_WriteBack newDirectory newDirFile d in
  let d := Directory_WriteBack parentDirectory parentDirectoryFile d in
  let d := BitMap_WriteBack freeMap (freeMapFile fs) d in
  (true, set_disk d fs).

Definition Create (name : option string) (initialSize : Z) (fs : FileSystem)
  : bool * FileSystem :=
  match name with
  | None => (false, fs)
  | Some n =>
    if nullOrEmpty name then (false, fs) else
    if initialSize <? 0 then (false, fs) else
    let currentSector := GetCurrentDirectory fs in
    if negb (validSector currentSector) then (false, fs) else
    let currentDirFile := OpenFile_new currentSector (disk fs) in
    let directory :=
      Directory_FetchFrom (Directory_new NumDirEntries) currentDirFile (disk fs) in
    if negb (Directory_Find n directory =? -1) then (false, fs) else
    let freeMap := BitMap_FetchFrom (BitMap_new NumSectors) (freeMapFile fs) (disk fs) in
    let '(sector, freeMap) := BitMap_Find freeMap in
    if sector =? -1 then (false, fs) else
    let '(added, directory) := Directory_Add n sector FILE_TYPE directory in
    if negb added then (false, fs) else
    let '(ok, hdr, freeMap) := FileHeader_Allocate freeMap initialSize in
    if negb ok then (false, fs) else
    let d := FileHeader_WriteBack sector hdr (disk fs) in
    let d := Directory_WriteBack directory currentDirFile d in
    let d := BitMap_WriteBack freeMap (freeMapFile fs) d in
    (true, set_disk d fs)
  end.

Definition Open (name : option string) (fs : FileSystem) : FileHandle * FileSystem :=
  match name with
  | None => (INVALID_FILE_HANDLE, fs)
  | Some n =>
    if nullOrEmpty name then (INVALID_FILE_HANDLE, fs) else
    let currentSector := GetCurrentDirectory fs in
    let currentDirFile := OpenFile_new currentSector (disk fs) in
    let directory :=
      Directory_FetchFrom (Directory_new NumDirEntries) currentDirFile (disk fs) in
    let sector := Directory_Find n directory in
    if sector =? -1 then (INVALID_FILE_HANDLE, fs) else
    match list_find (λ e, OpenFileTableEntry.inUse e = true
                          ∧ OpenFileTableEntry.sector e = sector)
                    (take MAX_OPEN_FILES (openFilesTable fs)) with
    | Some (i, _) => (Z.of_nat i, fs)
    | None =>
      let handle := FindFreeSlot fs in
      if handle =? INVALID_FILE_HANDLE then (INVALID_FILE_HANDLE, fs) else
      let file := OpenFile_new sector (disk fs) in
      (handle,
       set_table (<[Z.to_nat handle :=
                    OpenFileTableEntry.mk true (Some file) sector (String.substring 0 31 n) 0]>
                  (openFilesTable fs)) fs)
    end
  end.

Definition Remove (name : option string) (fs : FileSystem) : bool * FileSystem :=
  match name with
  | None => (false, fs)
  | Some n =>
    if nullOrEmpty name then (false, fs) else
    let currentSector := GetCurrentDirectory fs in
    if negb (validSector currentSector) then (false, fs) else
    let currentDirFile := OpenFile_new currentSector (disk fs) in
    let directory :=
      Directory_FetchFrom (Directory_new NumDirEntries) currentDirFile (disk fs) in
    let sector := Directory_Find n directory in
    if sector =? -1 then (false, fs) else
    let fileHdr := FileHeader_FetchFrom sector (disk fs) in
    let freeMap := BitMap_FetchFrom (BitMap_new NumSectors) (freeMapFile fs) (disk fs) in
    let freeMap := FileHeader_Deallocate fileHdr freeMap in
    let freeMap := BitMap_Clear sector freeMap in
    let directory := snd (Directory_Remove n directory) in
    let d := BitMap_WriteBack freeMap (freeMapFile fs) (disk fs) in
    let d := Directory_WriteBack directory currentDirFile d in
    (true, set_disk d fs)
  end.

(** The constructor, on the device [d]; [None] is a failed [ASSERT]. *)
Definition FileSystem_new (format : bool) (d : Disk) : option FileSystem :=
  let table := InitializeOpenFilesTable in
  if format then
    let freeMap := BitMap_new NumSectors in
    let directory := Directory_new NumDirEntries in
    let freeMap := BitMap_Mark FreeMapSector freeMap in
    let freeMap := BitMap_Mark DirectorySector freeMap in
    let '(ok, mapHdr, freeMap) := FileHeader_Allocate freeMap FreeMapFileSize in
    if negb ok then None else
    let '(ok, dirHdr, freeMap) := FileHeader_Allocate freeMap DirectoryFileSize in
    if negb ok then None else
    let d := FileHeader_WriteBack FreeMapSector mapHdr d in
    let d := FileHeader_WriteBack DirectorySector dirHdr d in
    let freeMapFile := OpenFile_new FreeMapSector d in
    let directoryFile := OpenFile_new DirectorySector d in
    let d := Directory_WriteBack directory directoryFile d in
    let directory := snd (Directory_Add "." DirectorySector DIR_TYPE directory) in
    let directory := snd (Directory_Add ".." DirectorySector DIR_TYPE directory) in
    let d := BitMap_WriteBack freeMap freeMapFile d in
    let d := Directory_WriteBack directory directoryFile d in
    Some (mkFS d freeMapFile directoryFile table DirectorySector DirectorySector)
  else
    let freeMapFile := OpenFile_new FreeMapSector d in
    let directoryFile := OpenFile_new DirectorySector d in
    Some (mkFS d freeMapFile directoryFile table DirectorySector DirectorySector).

End Controller.

(** ** Path components *)

(** [strchr(s, c)], as the text before the first [c] and the text after it. *)
Fixpoint strchr (s : string) (c : Ascii.ascii) : option (string * string) :=
  match s with
  | EmptyString => None
  | String a rest =>
      if Ascii.eqb a c then Some (EmptyString, rest)
      else match strchr rest c with
           | Some (before, after) => Some (String a before, after)
           | None => None
           end
  end.

(** The static helper of filesys.cc: the component at the head of [*path],
    and the new value of [*path] ([None] is [NULL]).  The separator found is
    overwritten with the end of the string, so the component stops there. *)
Definition getNextPathComponent (path : string) : string * option string :=
  match strchr path "/"%char with
  | Some (component, rest) => (component, Some rest)
  | None => (path, None)
  end.

(** ** A concrete machine: the constants of the reference system and a plain
    open-file object, on which the operations run *)

(** Modelled from the spec: the values of the constants are not in
    filesys.cc; these are those of the reference system, whose sector list
    caps a file at about 3KB (30 sectors of 128 bytes). *)
Definition nachos : Machine := {|
  SectorSize := 128;
  NumSectors := 1024;
  BitsInByte := 8;
  NumDirect := 30;
  DirectoryEntrySize := 20;
  MAX_OPEN_FILES := 10;
  INVALID_FILE_HANDLE := -1
|}.

(** Modelled from the spec: the bytes of the file behind [f], a file being
    of the fixed length its header records. *)
Definition fileBytes `{Machine} (f : OpenFile.t) (d : Disk) : list Z :=
  let len := Z.to_nat (FileHeader.numBytes (OpenFile.hdr f)) in
  match readData (OpenFile.hdrSector f) d with
  | Some (DataBytes bs) => resize len 0 bs
  | _ => replicate len 0
  end.

(** Modelled from the spec: the part of a request of [numBytes] bytes at
    [position] that lies inside a file of [len] bytes. *)
Definition clipRequest (len numBytes position : Z) : Z :=
  if (numBytes <=? 0) || (position <? 0) || (len <=? position) then 0
  else if len <? position + numBytes then len - position else numBytes.

(** Modelled from the spec: a positional read inside the fixed length of the
    file. *)
Definition plain_ReadAt `{Machine} (f : OpenFile.t) (d : Disk) (numBytes position : Z)
  : Z * Buffer :=
  let n := clipRequest (FileHeader.numBytes (OpenFile.hdr f)) numBytes position in
  (n, take (Z.to_nat n) (drop (Z.to_nat position) (fileBytes f d))).

(** Modelled from the spec: a positional write inside the fixed length of
    the file. *)
Definition plain_WriteAt `{Machine} (f : OpenFile.t) (d : Disk) (from : Buffer)
  (numBytes position : Z) : Z * Disk :=
  let n := clipRequest (FileHeader.numBytes (OpenFile.hdr f)) numBytes position in
  let old := fileBytes f d in
  let new := take (Z.to_nat position) old
             ++ resize (Z.to_nat n) 0 from
             ++ drop (Z.to_nat (position + n)) old in
  if n =? 0 then (0, d)
  else (n, writeData (OpenFile.hdrSector f) (DataBytes new) d).

(** Modelled from the spec: the seek position moved by the bytes
    transferred. *)
Definition advance (f : OpenFile.t) (n : Z) : OpenFile.t :=
  OpenFile.mk (OpenFile.hdrSector f) (OpenFile.hdr f) (OpenFile.seekPosition f + n).

(** Modelled from the spec: openfile.cc is not part of the sources.  Bytes
    are transferred inside the fixed length of the file; the sequential
    operations work at the object's seek position and advance it by the
    bytes transferred. *)
Definition plainIO `{Machine} : OpenFileIO := {|
  OpenFile_Read f d numBytes :=
    let '(n, data) := plain_ReadAt f d numBytes (OpenFile.seekPosition f) in
    (n, data, advance f n);
  OpenFile_Write f d from numBytes :=
    let '(n, d') := plain_WriteAt f d from numBytes (OpenFile.seekPosition f) in
    (n, advance f n, d');
  OpenFile_ReadAt := plain_ReadAt;
  OpenFile_WriteAt := plain_WriteAt
|}.

(** ** Sample states on the concrete machine *)

(** The controller before any disk is attached to it in earnest: no file
    open, the root as current directory. *)
Definition unformatted : FileSystem :=
  mkFS blankDisk (OpenFile.mk FreeMapSector FileHeader.fresh 0)
       (OpenFile.mk DirectorySector FileHeader.fresh 0) [] DirectorySector DirectorySector.

(** A freshly formatted blank disk. *)
Definition formatted : FileSystem :=
  default unformatted (@FileSystem_new nachos true blankDisk).

(** The same after [Create("a", 100)], and then after [Open("a")]. *)
Definition withA : FileSystem := snd (@Create nachos (Some "a") 100 formatted).
Definition withAOpen : FileSystem := snd (@Open nachos (Some "a") withA).

(** The same as [withA], with every slot of the table in use on a sector that
    holds no file of the directory. *)
Definition allOpen : FileSystem :=
  set_table
    (replicate 10 (OpenFileTableEntry.mk true (Some (OpenFile.mk 77 FileHeader.fresh 0))
                     77 "x" 0))
    withA.

(** ** Notions used in the statements *)

(** The directory stored in the file whose header is at sector [s], as the
    operations load it. *)
Definition loadDirectory `{Machine} (s : Z) (d : Disk) : Directory :=
  Directory_FetchFrom (Directory_new NumDirEntries) (OpenFile_new s d) d.

(** The current directory as persisted on the device. *)
Definition currentDirectory `{Machine} (fs : FileSystem) : Directory :=
  loadDirectory (threadDirectory fs) (disk fs).

(** The free-space map as persisted on the device. *)
Definition persistedFreeMap `{Machine} (fs : FileSystem) : BitMap :=
  BitMap_FetchFrom (BitMap_new NumSectors) (freeMapFile fs) (disk fs).

(** Number of slots of the open-file table that are in use. *)
Definition occupancy (fs : FileSystem) : nat :=
  length (filter (λ e, OpenFileTableEntry.inUse e = true) (openFilesTable fs)).

(** A name is present in a table when an active entry carries it. *)
Definition present (n : string) (table : Directory) : Prop :=
  is_Some (Directory_FindIndex n table).

(** Every slot in use, among the [MAX_OPEN_FILES] slots of the table, has an
    I/O object, and no two of them reference the same sector. *)
Definition tableConsistent `{Machine} (fs : FileSystem) : Prop :=
  ∀ (i : nat) (e : OpenFileTableEntry.t),
    (i < MAX_OPEN_FILES)%nat →
    openFilesTable fs !! i = Some e →
    OpenFileTableEntry.inUse e = true →
    OpenFileTableEntry.openFile e ≠ None
    ∧ ∀ (j : nat) (e' : OpenFileTableEntry.t),
        (j < MAX_OPEN_FILES)%nat →
        openFilesTable fs !! j = Some e' →
        OpenFileTableEntry.inUse e' = true →
        OpenFileTableEntry.sector e' = OpenFileTableEntry.sector e →
        j = i.

(** No slot in use, among the [MAX_OPEN_FILES] slots of the table,
    references the sector [s]. *)
Definition notOpen `{Machine} (s : Z) (fs : FileSystem) : Prop :=
  ∀ (i : nat) (e : OpenFileTableEntry.t),
    (i < MAX_OPEN_FILES)%nat →
    openFilesTable fs !! i = Some e →
    OpenFileTableEntry.inUse e = true →
    OpenFileTableEntry.sector e ≠ s.

(** ** Names present and absent *)

Lemma Directory_Find_absent n table :
  Directory_FindIndex n table = None → Directory_Find n table = -1.
Proof. unfold Directory_Find. by intros ->. Qed.

Lemma Directory_Add_present n s ty table :
  present n table → Directory_Add n s ty table = (false, table).
Proof. intros [[i e] Hp]. unfold Directory_Add. by rewrite Hp. Qed.

Section Failures.
Context `{M : Machine}.

(** C1. A [Create] that returns failure issues no device write and leaves
    the whole state, hence the persisted free-space map, the persisted
    directory and every header on disk, exactly as before the call. *)
Theorem Create_failure_writes_nothing (name : option string) (initialSize : Z)
  (fs : FileSystem) :
  fst (Create name initialSize fs) = false →
  writes (disk (snd (Create name initialSize fs))) = writes (disk fs)
  ∧ snd (Create name initialSize fs) = fs.
Proof.
  unfold Create. intros Hfail.
  repeat (case_match; simpl in *; try done).
Qed.

(** C3. When the name is already an entry of the current directory,
    [Create] returns failure whatever the requested size, and changes
    nothing. *)
Theorem Create_existing_name_fails (n : string) (initialSize : Z) (fs : FileSystem) :
  present n (currentDirectory fs) →
  Create (Some n) initialSize fs = (false, fs).
Proof.
  intros Hp. unfold Create.
  unfold currentDirectory, loadDirectory in Hp.
  unfold GetCurrentDirectory. cbv zeta.
  destruct (nullOrEmpty _); [done |].
  destruct (initialSize <? 0); [done |].
  destruct (negb (validSector _)); [done |].
  destruct (negb (Directory_Find _ _ =? -1)); [done |].
  destruct (BitMap_Find _) as [s freeMap].
  destruct (s =? -1); [done |].
  by rewrite (Directory_Add_present n s FILE_TYPE _ Hp).
Qed.

(** C8. When the name is not in the current directory, [Open] returns the
    invalid-handle sentinel and the state, so every slot of the open-file
    table, is as it was. *)
Theorem Open_missing_name (n : string) (fs : FileSystem) :
  Directory_FindIndex n (currentDirectory fs) = None →
  Open (Some n) fs = (INVALID_FILE_HANDLE, fs).
Proof.
  intros Hn. unfold Open.
  apply Directory_Find_absent in Hn.
  unfold currentDirectory, loadDirectory in Hn. unfold GetCurrentDirectory.
  rewrite Hn. simpl. by case_match.
Qed.

End Failures.

(** Inside the range of an [int], [int_add] is the addition of integers. *)
Lemma int_add_in_range (a b : Z) :
  - 2 ^ 31 ≤ a + b < 2 ^ 31 → int_add a b = a + b.
Proof.
  intros Hrange. unfold int_add, int_wrap.
  rewrite Z.mod_small by lia. lia.
Qed.

Section Handles.
Context `{M : Machine} `{IO : OpenFileIO}.

(** A handle is rejected exactly when it is out of range, its slot is not
    in use, or its slot has no I/O object. *)
Lemma IsValidHandle_false_iff (h : FileHandle) (fs : FileSystem) :
  IsValidHandle h fs = false ↔
    h < 0 ∨ Z.of_nat MAX_OPEN_FILES ≤ h
    ∨ OpenFileTableEntry.inUse (slot h fs) = false
    ∨ OpenFileTableEntry.openFile (slot h fs) = None.
Proof.
  unfold IsValidHandle, slot.
  rewrite !andb_false_iff, Z.leb_gt, Z.ltb_ge.
  destruct (openFilesTable fs !! Z.to_nat h) as [e|]; simpl.
  - rewrite andb_false_iff, bool_decide_eq_false.
    destruct (OpenFileTableEntry.openFile e) as [f|];
      intuition (lia || congruence || auto).
  - intuition (lia || auto).
Qed.

Lemma IsValidHandle_slot (h : FileHandle) (fs : FileSystem) :
  IsValidHandle h fs = true →
  ∃ e f, openFilesTable fs !! Z.to_nat h = Some e
         ∧ slot h fs = e
         ∧ OpenFileTableEntry.openFile e = Some f.
Proof.
  unfold IsValidHandle, slot. intros Hv.
  destruct (openFilesTable fs !! Z.to_nat h) as [e|];
    [| by rewrite andb_false_r in Hv].
  apply andb_true_iff in Hv as [_ Hv]. apply andb_true_iff in Hv as [_ Hv].
  apply bool_decide_eq_true in Hv.
  destruct (OpenFileTableEntry.openFile e) as [f|] eqn:Hf; [| done].
  by exists e, f.
Qed.

(** C9. With a handle that is not valid, or with a null buffer, each of
    the four transfer operations returns 0 bytes and the state, so every
    slot of the open-file table, is as it was; the operations are total
    functions, so no fault is possible. *)
Theorem invalid_transfer_is_void (h : FileHandle) (buf : option Buffer)
  (numBytes position : Z) (fs : FileSystem) :
  (h < 0 ∨ Z.of_nat MAX_OPEN_FILES ≤ h
   ∨ OpenFileTableEntry.inUse (slot h fs) = false
   ∨ OpenFileTableEntry.openFile (slot h fs) = None)
  ∨ buf = None →
  Read h buf numBytes fs = (0, [], fs)
  ∧ Write h buf numBytes fs = (0, fs)
  ∧ ReadAt h buf numBytes position fs = (0, [], fs)
  ∧ WriteAt h buf numBytes position fs = (0, fs).
Proof.
  unfold Read, Write, ReadAt, WriteAt.
  intros [Hbad | ->].
  - apply IsValidHandle_false_iff in Hbad. by rewrite Hbad.
  - by destruct (negb (IsValidHandle h fs)).
Qed.

(** C10. With a valid handle and a buffer, [ReadAt] leaves the slot's
    [currentPosition] increased (in [int] arithmetic) by the number of
    bytes it returns, and [WriteAt] leaves it as it was. *)
Theorem positional_cursor_asymmetry (h : FileHandle) (buf : Buffer)
  (numBytes position : Z) (fs : FileSystem) :
  IsValidHandle h fs = true →
  OpenFileTableEntry.currentPosition
    (slot h (snd (ReadAt h (Some buf) numBytes position fs)))
  = int_add (OpenFileTableEntry.currentPosition (slot h fs))
            (fst (fst (ReadAt h (Some buf) numBytes position fs)))
  ∧ OpenFileTableEntry.currentPosition
      (slot h (snd (WriteAt h (Some buf) numBytes position fs)))
    = OpenFileTableEntry.currentPosition (slot h fs).
Proof.
  intros Hv. destruct (IsValidHandle_slot h fs Hv) as (e & f & He & Hs & Hf).
  unfold ReadAt, WriteAt. rewrite Hv, Hs, Hf. simpl.
  destruct (OpenFile_ReadAt f (disk fs) numBytes position) as [bytesRead data].
  destruct (OpenFile_WriteAt f (disk fs) buf numBytes position) as [bytesWritten d'].
  simpl. split.
  - unfold update_slot, slot at 1. simpl.
    rewrite list_lookup_insert_eq; [by rewrite Hs |].
    by eapply lookup_lt_Some.
  - unfold slot, set_disk in *. simpl. by rewrite He in *.
Qed.

End Handles.

Section Opening.
Context `{M : Machine}.

(** C4. When the name resolves to a sector that an in-use slot [j] of the
    table already references, [Open] returns the handle of the first such
    slot (slot [j] itself when no other slot references the sector),
    allocates nothing, and leaves the state, so the occupancy and every
    slot of the table, as it was. *)
Theorem Open_already_open (n : string) (j : nat) (e : OpenFileTableEntry.t)
  (fs : FileSystem) :
  n ≠ EmptyString →
  Directory_Find n (currentDirectory fs) ≠ -1 →
  (j < MAX_OPEN_FILES)%nat →
  openFilesTable fs !! j = Some e →
  OpenFileTableEntry.inUse e = true →
  OpenFileTableEntry.sector e = Directory_Find n (currentDirectory fs) →
  ∃ (i : nat) (e' : OpenFileTableEntry.t),
    Open (Some n) fs = (Z.of_nat i, fs)
    ∧ (i ≤ j)%nat
    ∧ openFilesTable fs !! i = Some e'
    ∧ OpenFileTableEntry.inUse e' = true
    ∧ OpenFileTableEntry.sector e' = OpenFileTableEntry.sector e
    ∧ occupancy (snd (Open (Some n) fs)) = occupancy fs
    ∧ ((∀ k e'', openFilesTable fs !! k = Some e'' →
                 OpenFileTableEntry.inUse e'' = true →
                 OpenFileTableEntry.sector e'' = OpenFileTableEntry.sector e →
                 k = j) → i = j).
Proof.
  intros Hn Hs Hj He Hu Hsec.
  unfold currentDirectory, loadDirectory in Hs, Hsec.
  unfold Open, GetCurrentDirectory. cbv zeta.
  assert (nullOrEmpty (Some n) = false) as ->
    by (simpl; by apply bool_decide_eq_false).
  apply Z.eqb_neq in Hs as Hs'. rewrite Hs'.
  set (s := Directory_Find n _) in *.
  set (P := λ x, OpenFileTableEntry.inUse x = true ∧ OpenFileTableEntry.sector x = s).
  assert (take MAX_OPEN_FILES (openFilesTable fs) !! j = Some e) as Htk
    by (by rewrite lookup_take_lt).
  destruct (list_find_elem_of P (take MAX_OPEN_FILES (openFilesTable fs)) e)
    as [[i e'] Hfind]; [by eapply list_elem_of_lookup_2 | done |].
  fold P. rewrite Hfind.
  apply list_find_Some in Hfind as (Hi & [Hu' Hs''] & Hmin).
  apply lookup_take_Some in Hi as [Hi Hlt].
  assert (i ≤ j)%nat as Hle.
  { destruct (decide (i ≤ j)%nat) as [|Hgt]; [done |].
    exfalso. apply (Hmin j e Htk); [lia | done]. }
  exists i, e'. split_and!; try done.
  - congruence.
  - intros Huniq. apply (Huniq i e'); [done | done | congruence].
Qed.

End Opening.

(** The four parts of the statement about [ChangeDirectory] on a path where
    the call returns failure: what remains is to refute the success
    condition. *)
Ltac failing_case :=
  split_and!; [split; [done |] | done | done | done];
  let H := fresh in
  intros H; destruct H as (? & ? & ? & ? & ? & ? & ? & ?); simplify_eq; try done.

Section Navigation.
Context `{M : Machine}.

Lemma Directory_FindIndex_new (n : string) (size : nat) :
  Directory_FindIndex n (replicate size DirectoryEntry.unused) = None.
Proof.
  apply list_find_None, Forall_forall.
  intros e ->%elem_of_replicate_inv [Hu _]. done.
Qed.

(** No sector outside the device holds a directory. *)
Lemma loadDirectory_invalid (n : string) (s : Z) (d : Disk) :
  validSector s = false → Directory_FindIndex n (loadDirectory s d) = None.
Proof.
  intros Hs. unfold loadDirectory, Directory_FetchFrom, storedTable, readData, OpenFile_new.
  cbn [OpenFile.hdrSector]. rewrite Hs. unfold Directory_new.
  rewrite length_replicate, resize_nil, take_drop. apply Directory_FindIndex_new.
Qed.

(** C5. [ChangeDirectory] succeeds exactly when the name is non-null and
    non-empty and resolves, in the current directory, to an entry of type
    DIR whose sector is in range; on success the current-directory sector
    becomes the resolved sector and nothing else changes, so a name that
    resolves to the current sector (".") leaves it where it is; on failure
    the state is unchanged. *)
Theorem ChangeDirectory_succeeds_iff (name : option string) (fs : FileSystem) :
  (fst (ChangeDirectory name fs) = true ↔
     ∃ n i e, name = Some n ∧ n ≠ EmptyString
              ∧ Directory_FindIndex n (currentDirectory fs) = Some (i, e)
              ∧ DirectoryEntry.type e = DIR_TYPE
              ∧ validSector (DirectoryEntry.sector e) = true)
  ∧ (∀ n, name = Some n → fst (ChangeDirectory name fs) = true →
          snd (ChangeDirectory name fs)
          = SetCurrentDirectory (Directory_Find n (currentDirectory fs)) fs
          ∧ threadDirectory (snd (ChangeDirectory name fs))
            = Directory_Find n (currentDirectory fs))
  ∧ (∀ n, name = Some n →
          Directory_Find n (currentDirectory fs) = threadDirectory fs →
          threadDirectory (snd (ChangeDirectory name fs)) = threadDirectory fs)
  ∧ (fst (ChangeDirectory name fs) = false → snd (ChangeDirectory name fs) = fs).
Proof.
  destruct name as [n|]; simpl; [| by failing_case].
  unfold GetCurrentDirectory.
  fold (loadDirectory (threadDirectory fs) (disk fs)). fold (currentDirectory fs).
  destruct (bool_decide (n = EmptyString)) eqn:Hn; simpl.
  { apply bool_decide_eq_true in Hn. by failing_case. }
  apply bool_decide_eq_false in Hn.
  destruct (validSector (threadDirectory fs)) eqn:Hcur; simpl.
  2: { failing_case. unfold currentDirectory in *.
       by rewrite loadDirectory_invalid in *. }
  unfold Directory_Find, Directory_GetEntryType.
  destruct (Directory_FindIndex n (currentDirectory fs)) as [[i e]|] eqn:Hf; simpl.
  2: { by failing_case. }
  destruct (Z.eqb_spec (DirectoryEntry.sector e) (-1)) as [Hm | Hm]; simpl.
  { failing_case. unfold validSector in *. by rewrite Hm in *. }
  destruct (bool_decide (Some (DirectoryEntry.type e) = Some DIR_TYPE)) eqn:Hty; simpl.
  2: { apply bool_decide_eq_false in Hty. failing_case. congruence. }
  destruct (validSector (DirectoryEntry.sector e)) eqn:Hv; simpl.
  2: { failing_case. congruence. }
  apply bool_decide_eq_true in Hty as [= Hdir].
  split_and!.
  - split; [intros _ | done]. by exists n, i, e.
  - intros n' [= <-] _. by rewrite Hf.
  - intros n' [= <-]. rewrite Hf. by intros ->.
  - done.
Qed.

End Navigation.

(** ** The bitmap: finding, marking, clearing and counting *)

Section BitMapFacts.
Implicit Types (m : BitMap) (s t : Z).

Lemma BitMap_set_length which b m : length (BitMap_set which b m) = length m.
Proof. unfold BitMap_set. case_match; [apply length_insert | done]. Qed.

Lemma BitMap_Find_cases m :
  (BitMap_Find m = (-1, m) ∧ Forall (λ b, b = true) m)
  ∨ (∃ i : nat, BitMap_Find m = (Z.of_nat i, <[i := true]> m) ∧ m !! i = Some false).
Proof.
  unfold BitMap_Find. destruct (list_find _ m) as [[i b]|] eqn:Hf.
  - right. apply list_find_Some in Hf as (Hi & -> & _). by exists i.
  - left. split; [done |]. apply list_find_None in Hf.
    eapply Forall_impl; [exact Hf |]. by intros [].
Qed.

Lemma BitMap_Find_length m : length (BitMap_Find m).2 = length m.
Proof.
  destruct (BitMap_Find_cases m) as [[-> _] | (i & -> & _)]; simpl; [done |].
  apply length_insert.
Qed.

(** [Find] yields a sector of the map, or -1. *)
Lemma BitMap_Find_range m s m' :
  BitMap_Find m = (s, m') → s ≠ -1 → 0 ≤ s < Z.of_nat (length m).
Proof.
  destruct (BitMap_Find_cases m) as [[-> _] | (i & -> & Hi)]; intros [= <- <-] Hs;
    [done |].
  apply lookup_lt_Some in Hi. lia.
Qed.





Lemma BitMap_FindN_length (k : nat) m : length (BitMap_FindN k m).2 = length m.
Proof.
  revert m. induction k as [| k IH]; intros m; simpl; [done |].
  destruct (BitMap_Find m) as [s m1] eqn:Hfind.
  specialize (IH m1). destruct (BitMap_FindN k m1) as [rest m2]. simpl in *.
  rewrite IH. by rewrite <- (BitMap_Find_length m), Hfind.
Qed.

(** Clearing changes nothing in a map with no sector in use. *)
Lemma BitMap_Clear_blank s (n : nat) :
  BitMap_Clear s (replicate n false) = replicate n false.
Proof.
  unfold BitMap_Clear, BitMap_set. case_match eqn:Hin; [| done].
  apply list_insert_id, lookup_replicate_2.
  rewrite length_replicate in Hin. lia.
Qed.

Lemma BitMap_Clear_foldl_blank (l : list Z) (n : nat) :
  foldl (λ m t, BitMap_Clear t m) (replicate n false) l = replicate n false.
Proof. induction l as [| t l IH]; simpl; [done |]. by rewrite BitMap_Clear_blank. Qed.

End BitMapFacts.

(** ** Counting free sectors, and what stays reserved *)

Section Counting.
Implicit Types (m : BitMap) (s t : Z).

Lemma NumClear_insert (i : nat) (b : bool) m :
  BitMap_NumClear m - 1 ≤ BitMap_NumClear (<[i := b]> m).
Proof.
  unfold BitMap_NumClear.
  enough (length (filter (λ b, b = false) m)
          ≤ S (length (filter (λ b, b = false) (<[i := b]> m))))%nat by lia.
  revert i. induction m as [| a m IH]; intros [| i]; try (simpl; lia).
  - change (<[0%nat := b]> (a :: m)) with (b :: m).
    rewrite !(filter_cons (λ b, b = false)). repeat case_decide; simpl; lia.
  - change (<[S i := b]> (a :: m)) with (a :: <[i := b]> m).
    rewrite !(filter_cons (λ b, b = false)). specialize (IH i).
    case_decide; simpl; lia.
Qed.

Lemma NumClear_blank (n : nat) : BitMap_NumClear (replicate n false) = Z.of_nat n.
Proof.
  unfold BitMap_NumClear. f_equal.
  induction n as [| n IH]; [done |].
  change (replicate (S n) false) with (false :: replicate n false).
  rewrite (filter_cons_True (λ b, b = false)) by done. simpl. by rewrite IH.
Qed.

Lemma NumClear_Mark s m : BitMap_NumClear m - 1 ≤ BitMap_NumClear (BitMap_Mark s m).
Proof.
  unfold BitMap_Mark, BitMap_set. case_match; [apply NumClear_insert | lia].
Qed.

Lemma NumClear_Find m : BitMap_NumClear m - 1 ≤ BitMap_NumClear (BitMap_Find m).2.
Proof.
  destruct (BitMap_Find_cases m) as [[-> _] | (i & -> & _)]; simpl;
    [lia | apply NumClear_insert].
Qed.

Lemma NumClear_FindN (k : nat) m :
  BitMap_NumClear m - Z.of_nat k ≤ BitMap_NumClear (BitMap_FindN k m).2.
Proof.
  revert m. induction k as [| k IH]; intros m; simpl; [lia |].
  pose proof (NumClear_Find m) as Hf.
  destruct (BitMap_Find m) as [s m1]. specialize (IH m1).
  destruct (BitMap_FindN k m1) as [rest m2]. simpl in *. lia.
Qed.

Lemma BitMap_Test_insert s (i : nat) m :
  BitMap_Test s m = true → BitMap_Test s (<[i := true]> m) = true.
Proof.
  unfold BitMap_Test. intros [Hs Hm]%andb_true_iff. rewrite Hs. simpl.
  destruct (decide (i = Z.to_nat s)) as [-> | Hne].
  - destruct (m !! Z.to_nat s) eqn:Hl; [| done].
    rewrite list_lookup_insert_eq; [done | by eapply lookup_lt_Some].
  - by rewrite list_lookup_insert_ne.
Qed.

Lemma BitMap_Test_Mark_other s t m :
  BitMap_Test s m = true → BitMap_Test s (BitMap_Mark t m) = true.
Proof.
  unfold BitMap_Mark, BitMap_set. case_match; [apply BitMap_Test_insert | done].
Qed.

Lemma BitMap_Test_Mark s m :
  0 ≤ s < Z.of_nat (length m) → BitMap_Test s (BitMap_Mark s m) = true.
Proof.
  intros Hs. unfold BitMap_Test, BitMap_Mark, BitMap_set.
  destruct (Z.leb_spec 0 s), (Z.ltb_spec s (Z.of_nat (length m))); try lia. simpl.
  rewrite list_lookup_insert_eq; [done | lia].
Qed.

Lemma BitMap_Test_Find s m :
  BitMap_Test s m = true → BitMap_Test s (BitMap_Find m).2 = true.
Proof.
  destruct (BitMap_Find_cases m) as [[-> _] | (i & -> & _)]; simpl;
    [done | apply BitMap_Test_insert].
Qed.

Lemma BitMap_Test_FindN s (k : nat) m :
  BitMap_Test s m = true → BitMap_Test s (BitMap_FindN k m).2 = true.
Proof.
  revert m. induction k as [| k IH]; intros m Ht; simpl; [done |].
  pose proof (BitMap_Test_Find s m Ht) as Hf.
  destruct (BitMap_Find m) as [r m1]. specialize (IH m1 Hf).
  by destruct (BitMap_FindN k m1) as [rest m2].
Qed.

Lemma divRoundUp_nonneg (n d : Z) : 0 ≤ n → 0 < d → 0 ≤ divRoundUp n d.
Proof.
  intros Hn Hd. unfold divRoundUp.
  pose proof (Z.div_pos n d Hn Hd). case_match; lia.
Qed.



(** A sector that [Find] yields was free and is now in use. *)
Lemma BitMap_Find_marks m s m' :
  BitMap_Find m = (s, m') → s ≠ -1 →
  BitMap_Test s m = false ∧ BitMap_Test s m' = true.
Proof.
  destruct (BitMap_Find_cases m) as [[-> _] | (i & -> & Hi)]; intros [= <- <-] Hs;
    [done |].
  unfold BitMap_Test. rewrite Nat2Z.id, Hi.
  rewrite list_lookup_insert_eq by (by eapply lookup_lt_Some).
  destruct (Z.leb_spec 0 (Z.of_nat i)); [done | lia].
Qed.


End Counting.

(** ** The device: what is read after a write *)

Section DiskFacts.
Context `{M : Machine}.

Lemma readData_writeData_eq s c d :
  validSector s = true → readData s (writeData s c d) = Some c.
Proof.
  intros Hs. unfold readData, writeData. simpl. rewrite Hs.
  apply lookup_insert_eq.
Qed.

Lemma readData_writeData_ne s t c d :
  s ≠ t → readData s (writeData t c d) = readData s d.
Proof.
  intros Hne. unfold readData, writeData. simpl.
  destruct (validSector s), (validSector t); try done.
  by apply lookup_insert_ne.
Qed.

Lemma readData_writeHeader s t h d : readData s (writeHeader t h d) = readData s d.
Proof. done. Qed.

Lemma readHeader_writeData s t c d : readHeader s (writeData t c d) = readHeader s d.
Proof. done. Qed.

Lemma readHeader_writeHeader_eq s h d :
  validSector s = true → readHeader s (writeHeader s h d) = Some h.
Proof.
  intros Hs. unfold readHeader, writeHeader. simpl. rewrite Hs.
  apply lookup_insert_eq.
Qed.


Lemma readData_transferData_eq s stored requested d :
  validSector s = true → readData s (transferData s stored requested d) = Some stored.
Proof.
  intros Hs. unfold readData, transferData. simpl. rewrite Hs.
  apply lookup_insert_eq.
Qed.

Lemma readData_transferData_ne s t stored requested d :
  s ≠ t → readData s (transferData t stored requested d) = readData s d.
Proof.
  intros Hne. unfold readData, transferData. simpl.
  destruct (validSector s), (validSector t); try done.
  by apply lookup_insert_ne.
Qed.

Lemma readHeader_transferData s t stored requested d :
  readHeader s (transferData t stored requested d) = readHeader s d.
Proof. done. Qed.

Lemma readHeader_writeHeader_ne s t h d :
  s ≠ t → readHeader s (writeHeader t h d) = readHeader s d.
Proof.
  intros Hne. unfold readHeader, writeHeader. simpl.
  destruct (validSector s), (validSector t); try done.
  by apply lookup_insert_ne.
Qed.

End DiskFacts.

(** ** Directories: adding and finding *)

Section DirectoryFacts.
Implicit Types (table : Directory) (n : string).

Lemma Directory_Add_length n s ty table :
  length (Directory_Add n s ty table).2 = length table.
Proof.
  unfold Directory_Add. repeat case_match; simpl; try done.
  apply length_insert.
Qed.


(** A record loaded through a file has the size of the receiver. *)
Lemma transfer_length {A} (k n : nat) (x : A) (stored receiver : list A) :
  length receiver = n →
  length (take k (resize n x stored) ++ drop k receiver) = n.
Proof.
  intros Hn. rewrite length_app, length_take, length_resize, length_drop. lia.
Qed.

Lemma Directory_FetchFrom_length `{Machine} table file d :
  length (Directory_FetchFrom table file d) = length table.
Proof. unfold Directory_FetchFrom. by apply transfer_length. Qed.

Lemma BitMap_FetchFrom_length `{Machine} (m : BitMap) file d :
  length (BitMap_FetchFrom m file d) = length m.
Proof. unfold BitMap_FetchFrom. by apply transfer_length. Qed.

(** What is loaded into a fresh receiver after a record was stored through
    a file of the same length: the part of the record that the file holds,
    the rest as the receiver had it. *)
Lemma transfer_roundtrip {A} (k n : nat) (x : A) (record old : list A) :
  length record = n →
  take k (resize n x (take k record ++ drop k (resize n x old))) ++ drop k (replicate n x)
  = take k record ++ replicate (n - k) x.
Proof.
  intros Hn. rewrite drop_replicate. f_equal.
  assert (length (take k record ++ drop k (resize n x old)) = n) as Hlen.
  { rewrite length_app, length_take, length_drop, length_resize. lia. }
  rewrite resize_all_alt by done.
  destruct (decide (k ≤ n)%nat) as [Hk | Hk].
  - rewrite take_app_length'; [done |]. rewrite length_take. lia.
  - rewrite (take_ge record), drop_ge, app_nil_r by (rewrite ?length_resize; lia).
    apply take_ge. lia.
Qed.

(** A record with nothing beyond what the file holds is loaded whole. *)
Lemma transfer_tail {A} (k n : nat) (x : A) (stored : list A) :
  drop k (take k (resize n x stored) ++ drop k (replicate n x)) = replicate (n - k) x.
Proof.
  destruct (decide (k ≤ n)%nat) as [Hk | Hk].
  - rewrite drop_app_length'; [by rewrite drop_replicate |].
    rewrite length_take, length_resize. lia.
  - rewrite drop_ge; [by replace (n - k)%nat with 0%nat by lia |].
    rewrite length_app, length_take, length_resize, length_drop, length_replicate. lia.
Qed.

Lemma transfer_whole {A} (k n : nat) (x : A) (record : list A) :
  length record = n → drop k record = replicate (n - k) x →
  take k record ++ replicate (n - k) x = record.
Proof. intros Hn <-. apply take_drop. Qed.

End DirectoryFacts.

(** ** Allocation and its undoing *)

Section Allocation.
Context `{M : Machine}.



(** After a successful [Add] the name is carried by the entry added. *)
Lemma Directory_Add_FindIndex (n : string) (s : Z) (ty : EntryType) (table table' : Directory) :
  Directory_Add n s ty table = (true, table') →
  ∃ i, Directory_FindIndex n table' = Some (i, DirectoryEntry.mk true s n ty).
Proof.
  unfold Directory_Add.
  destruct (Directory_FindIndex n table) as [[j e]|] eqn:Habsent; [done |].
  destruct (list_find _ table) as [[i e]|] eqn:Hfree; [| done].
  intros [= <-]. exists i.
  apply list_find_Some in Hfree as (Hi & _ & _).
  apply list_find_None in Habsent.
  apply list_find_Some. split_and!; try done.
  - apply list_lookup_insert_eq. by eapply lookup_lt_Some.
  - intros j y Hj Hlt. rewrite list_lookup_insert_ne in Hj by lia.
    eapply Forall_lookup_1 in Habsent; [exact Habsent | exact Hj].
Qed.

Lemma FileHeader_Allocate_numBytes (freeMap : BitMap) (size : Z) hdr freeMap' :
  FileHeader_Allocate freeMap size = (true, hdr, freeMap') →
  FileHeader.numBytes hdr = size.
Proof.
  unfold FileHeader_Allocate. destruct (_ || _); [done |].
  destruct (BitMap_FindN _ freeMap) as [secs m']. by intros [= <- <-].
Qed.

(** What a successful [Create] has done. *)
Lemma Create_success (n : string) (initialSize : Z) (fs : FileSystem) :
  fst (Create (Some n) initialSize fs) = true →
  ∃ s freeMap1 directory1 hdr freeMap2,
    n ≠ EmptyString
    ∧ validSector (threadDirectory fs) = true
    ∧ BitMap_Find (persistedFreeMap fs) = (s, freeMap1)
    ∧ s ≠ -1
    ∧ Directory_Add n s FILE_TYPE (currentDirectory fs) = (true, directory1)
    ∧ FileHeader_Allocate freeMap1 initialSize = (true, hdr, freeMap2)
    ∧ snd (Create (Some n) initialSize fs)
      = set_disk
          (BitMap_WriteBack freeMap2 (freeMapFile fs)
             (Directory_WriteBack directory1
                (OpenFile_new (threadDirectory fs) (disk fs))
                (FileHeader_WriteBack s hdr (disk fs))))
          fs.
Proof.
  unfold Create, GetCurrentDirectory. cbv zeta.
  fold (loadDirectory (threadDirectory fs) (disk fs)). fold (currentDirectory fs).
  fold (persistedFreeMap fs).
  destruct (nullOrEmpty (Some n)) eqn:Hn; [done |].
  destruct (initialSize <? 0); [done |].
  destruct (validSector (threadDirectory fs)) eqn:Hcur; [| done]. simpl negb. cbv iota.
  destruct (negb (Directory_Find n (currentDirectory fs) =? -1)); [done |].
  destruct (BitMap_Find (persistedFreeMap fs)) as [s freeMap1] eqn:Hfind.
  destruct (Z.eqb_spec s (-1)) as [| Hs]; [done |].
  destruct (Directory_Add n s FILE_TYPE (currentDirectory fs))
    as [[] directory1] eqn:Hadd; [| done]. simpl negb. cbv iota.
  destruct (FileHeader_Allocate freeMap1 initialSize) as [[[] hdr] freeMap2] eqn:Hal;
    [| done].
  intros _. exists s, freeMap1, directory1, hdr, freeMap2.
  split_and!; try done.
  simpl in Hn. by apply bool_decide_eq_false in Hn.
Qed.

End Allocation.

Section CreateRemove.
Context `{M : Machine}.

Lemma BitMap_new_length : length (BitMap_new NumSectors) = Z.to_nat NumSectors.
Proof. apply length_replicate. Qed.

Lemma persistedFreeMap_length fs : length (persistedFreeMap fs) = Z.to_nat NumSectors.
Proof. unfold persistedFreeMap. by rewrite BitMap_FetchFrom_length, BitMap_new_length. Qed.

Lemma currentDirectory_length fs : length (currentDirectory fs) = NumDirEntries.
Proof.
  unfold currentDirectory, loadDirectory.
  rewrite Directory_FetchFrom_length. apply length_replicate.
Qed.

(** A file that holds the table of a directory holds all its entries. *)
Lemma recordsWithin_whole (len : Z) :
  DirectoryFileSize ≤ len →
  recordsWithin len DirectoryEntrySize NumDirEntries = NumDirEntries.
Proof.
  intros Hlen. unfold recordsWithin, DirectoryFileSize in *.
  destruct (Z.leb_spec (Z.of_nat NumDirEntries * DirectoryEntrySize) len); [done | lia].
Qed.

(** A file that holds the map of all sectors holds all its bits. *)
Lemma bitsWithin_whole (len : Z) :
  0 ≤ NumSectors → FreeMapFileSize ≤ len →
  bitsWithin len (Z.to_nat NumSectors) = Z.to_nat NumSectors.
Proof.
  intros Hpos Hlen. unfold bitsWithin, FreeMapFileSize in *.
  rewrite Z2Nat.id by done.
  destruct (Z.leb_spec (NumSectors ÷ BitsInByte) len); [done | lia].
Qed.

(** An open file is the sector it is bound to, and the header found there. *)
Lemma OpenFile_new_headers s d d' :
  readHeader s d = readHeader s d' → OpenFile_new s d = OpenFile_new s d'.
Proof. intros Hh. unfold OpenFile_new, FileHeader_FetchFrom. by rewrite Hh. Qed.

(** The map read back from the file it was written to: the bits that the
    file holds, and no bit in use beyond. *)
Lemma BitMap_FetchFrom_WriteBack (m : BitMap) file d :
  validSector (OpenFile.hdrSector file) = true →
  length m = Z.to_nat NumSectors →
  BitMap_FetchFrom (BitMap_new NumSectors) file (BitMap_WriteBack m file d)
  = take (bitsWithin (FileHeader.numBytes (OpenFile.hdr file)) (Z.to_nat NumSectors)) m
    ++ replicate (Z.to_nat NumSectors
                  - bitsWithin (FileHeader.numBytes (OpenFile.hdr file)) (Z.to_nat NumSectors))
         false.
Proof.
  intros Hv Hlen. unfold BitMap_FetchFrom, BitMap_WriteBack, storedBits at 1.
  rewrite readData_transferData_eq by done.
  rewrite BitMap_new_length, Hlen. unfold BitMap_new.
  by apply transfer_roundtrip.
Qed.




(** The table read back from the file it was written to, through a file
    bound to the same sector with a header of the same length: the entries
    that the file holds, and none active beyond. *)
Lemma Directory_FetchFrom_WriteBack (table : Directory) (file file' : OpenFile.t) d :
  OpenFile.hdrSector file' = OpenFile.hdrSector file →
  FileHeader.numBytes (OpenFile.hdr file') = FileHeader.numBytes (OpenFile.hdr file) →
  validSector (OpenFile.hdrSector file) = true →
  length table = NumDirEntries →
  Directory_FetchFrom (Directory_new NumDirEntries) file' (Directory_WriteBack table file d)
  = take (recordsWithin (FileHeader.numBytes (OpenFile.hdr file)) DirectoryEntrySize
            NumDirEntries) table
    ++ replicate (NumDirEntries
                  - recordsWithin (FileHeader.numBytes (OpenFile.hdr file)) DirectoryEntrySize
                      NumDirEntries)
         DirectoryEntry.unused.
Proof.
  intros Hs Hb Hv Hlen. unfold Directory_FetchFrom, Directory_WriteBack, storedTable at 1.
  rewrite Hs, Hb, readData_transferData_eq by done.
  unfold Directory_new at 1 2 3. rewrite length_replicate, Hlen. unfold Directory_new.
  by apply transfer_roundtrip.
Qed.

(** The same when the file holds the whole table. *)
Lemma Directory_FetchFrom_WriteBack_whole (table : Directory) (file file' : OpenFile.t) d :
  OpenFile.hdrSector file' = OpenFile.hdrSector file →
  FileHeader.numBytes (OpenFile.hdr file') = FileHeader.numBytes (OpenFile.hdr file) →
  validSector (OpenFile.hdrSector file) = true →
  length table = NumDirEntries →
  DirectoryFileSize ≤ FileHeader.numBytes (OpenFile.hdr file) →
  Directory_FetchFrom (Directory_new NumDirEntries) file' (Directory_WriteBack table file d)
  = table.
Proof.
  intros Hs Hb Hv Hlen Hfit.
  rewrite Directory_FetchFrom_WriteBack, recordsWithin_whole by done.
  rewrite take_ge by lia. replace (NumDirEntries - NumDirEntries)%nat with 0%nat by lia.
  apply app_nil_r.
Qed.

(** What was loaded has no entry beyond what the file holds. *)
Lemma loadDirectory_tail s d :
  drop (recordsWithin (FileHeader.numBytes (FileHeader_FetchFrom s d)) DirectoryEntrySize
          NumDirEntries)
       (loadDirectory s d)
  = replicate (NumDirEntries
               - recordsWithin (FileHeader.numBytes (FileHeader_FetchFrom s d))
                   DirectoryEntrySize NumDirEntries)
      DirectoryEntry.unused.
Proof.
  unfold loadDirectory, Directory_FetchFrom, OpenFile_new. cbn [OpenFile.hdr OpenFile.hdrSector].
  unfold Directory_new. rewrite length_replicate.
  apply transfer_tail.
Qed.

(** A write to the free-map file leaves the table of another file alone,
    and a write to a directory leaves the map alone. *)
Lemma Directory_FetchFrom_BitMap_WriteBack (table : Directory) (m : BitMap) file f d :
  OpenFile.hdrSector f ≠ OpenFile.hdrSector file →
  Directory_FetchFrom table f (BitMap_WriteBack m file d) = Directory_FetchFrom table f d.
Proof.
  intros Hne. unfold Directory_FetchFrom, BitMap_WriteBack, storedTable.
  by rewrite readData_transferData_ne.
Qed.

Lemma BitMap_FetchFrom_Directory_WriteBack (m0 : BitMap) (table : Directory) file f d :
  OpenFile.hdrSector file ≠ OpenFile.hdrSector f →
  BitMap_FetchFrom m0 file (Directory_WriteBack table f d) = BitMap_FetchFrom m0 file d.
Proof.
  intros Hne. unfold BitMap_FetchFrom, Directory_WriteBack, storedBits.
  by rewrite readData_transferData_ne.
Qed.







End CreateRemove.

Section Directories.
Context `{M : Machine}.

(** The table [CreateDirectory] and the constructor seed a directory at
    [self] with, whose parent is at [parent]. *)
Lemma seeded_directory (self parent : Z) :
  Directory_entries
    (Directory_Add ".." parent DIR_TYPE
       (Directory_Add "." self DIR_TYPE (Directory_new NumDirEntries)).2).2
  = [(".", self, DIR_TYPE); ("..", parent, DIR_TYPE)]
  ∧ length (Directory_Add ".." parent DIR_TYPE
              (Directory_Add "." self DIR_TYPE (Directory_new NumDirEntries)).2).2
    = NumDirEntries.
Proof. split; reflexivity. Qed.


End Directories.

Section Bootstrap.
Context `{M : Machine}.

(** [Allocate] succeeds when the sector list and the free sectors
    suffice; it keeps what was reserved. *)
Lemma FileHeader_Allocate_enough (m : BitMap) (size : Z) :
  divRoundUp size SectorSize ≤ NumDirect →
  divRoundUp size SectorSize ≤ BitMap_NumClear m →
  ∃ hdr m',
    FileHeader_Allocate m size = (true, hdr, m')
    ∧ length m' = length m
    ∧ BitMap_NumClear m - Z.max 0 (divRoundUp size SectorSize) ≤ BitMap_NumClear m'
    ∧ ∀ s, BitMap_Test s m = true → BitMap_Test s m' = true.
Proof.
  intros Hdirect Hclear. unfold FileHeader_Allocate.
  destruct (Z.ltb_spec NumDirect (divRoundUp size SectorSize)); [lia |].
  destruct (Z.ltb_spec (BitMap_NumClear m) (divRoundUp size SectorSize)); [lia |].
  simpl.
  pose proof (BitMap_FindN_length (Z.to_nat (divRoundUp size SectorSize)) m) as Hlen.
  pose proof (NumClear_FindN (Z.to_nat (divRoundUp size SectorSize)) m) as Hnum.
  pose proof (λ s, BitMap_Test_FindN s (Z.to_nat (divRoundUp size SectorSize)) m) as Hkeep.
  destruct (BitMap_FindN _ m) as [secs m']. simpl in *.
  eexists _, m'. split_and!; [done | done | lia | done].
Qed.

(** C6. Formatting any device (a blank one in particular) on a machine
    whose disk has room for the two bootstrap files completes, and leaves a
    persisted free-space map with sectors 0 and 1 in use and a persisted
    root directory whose active entries are exactly "." and "..", both at
    the root directory's own sector. *)
Theorem format_bootstraps (d : Disk) :
  0 < SectorSize → 0 ≤ FreeMapFileSize → 0 ≤ DirectoryFileSize →
  divRoundUp FreeMapFileSize SectorSize ≤ NumDirect →
  divRoundUp DirectoryFileSize SectorSize ≤ NumDirect →
  2 + divRoundUp FreeMapFileSize SectorSize + divRoundUp DirectoryFileSize SectorSize
    ≤ NumSectors →
  ∃ fs, FileSystem_new true d = Some fs
        ∧ BitMap_Test FreeMapSector (persistedFreeMap fs) = true
        ∧ BitMap_Test DirectorySector (persistedFreeMap fs) = true
        ∧ Directory_entries (loadDirectory DirectorySector (disk fs))
          = [(".", DirectorySector, DIR_TYPE); ("..", DirectorySector, DIR_TYPE)]
        ∧ threadDirectory fs = DirectorySector.
Proof.
  intros Hsec Hmap Hdir Hd1 Hd2 Hroom.
  pose proof (divRoundUp_nonneg _ _ Hmap Hsec) as Hk1.
  pose proof (divRoundUp_nonneg _ _ Hdir Hsec) as Hk2.
  unfold FileSystem_new.
  set (m0 := BitMap_Mark DirectorySector (BitMap_Mark FreeMapSector (BitMap_new NumSectors))).
  assert (length m0 = Z.to_nat NumSectors) as Hlen0.
  { unfold m0, BitMap_Mark. by rewrite !BitMap_set_length, BitMap_new_length. }
  assert (NumSectors - 2 ≤ BitMap_NumClear m0) as Hnum0.
  { unfold m0.
    pose proof (NumClear_Mark DirectorySector (BitMap_Mark FreeMapSector (BitMap_new NumSectors))).
    pose proof (NumClear_Mark FreeMapSector (BitMap_new NumSectors)).
    unfold BitMap_new in *. rewrite NumClear_blank in *. lia. }
  assert (BitMap_Test FreeMapSector m0 = true ∧ BitMap_Test DirectorySector m0 = true)
    as [Ht0 Ht1].
  { unfold m0, FreeMapSector, DirectorySector. split.
    - apply BitMap_Test_Mark_other, BitMap_Test_Mark. rewrite BitMap_new_length. lia.
    - apply BitMap_Test_Mark. unfold BitMap_Mark.
      rewrite BitMap_set_length, BitMap_new_length. lia. }
  destruct (FileHeader_Allocate_enough m0 FreeMapFileSize)
    as (mapHdr & m1 & Hal1 & Hlen1 & Hnum1 & Hkeep1); [done | lia |].
  destruct (FileHeader_Allocate_enough m1 DirectoryFileSize)
    as (dirHdr & m2 & Hal2 & Hlen2 & Hnum2 & Hkeep2); [done | lia |].
  rewrite Hal1, Hal2.
  simpl negb. cbv iota zeta.
  assert (validSector FreeMapSector = true ∧ validSector DirectorySector = true)
    as [Hv0 Hv1].
  { unfold validSector, FreeMapSector, DirectorySector.
    split; apply andb_true_iff; (split; [apply Z.leb_le | apply Z.ltb_lt]; lia). }
  eexists. split; [reflexivity |].
  unfold persistedFreeMap, loadDirectory. cbn [freeMapFile disk threadDirectory].
  set (d0 := FileHeader_WriteBack DirectorySector dirHdr
               (FileHeader_WriteBack FreeMapSector mapHdr d)).
  assert (FileHeader_FetchFrom FreeMapSector d0 = mapHdr) as Hh0.
  { unfold FileHeader_FetchFrom, d0, FileHeader_WriteBack.
    rewrite readHeader_writeHeader_ne by done.
    by rewrite readHeader_writeHeader_eq. }
  assert (FileHeader_FetchFrom DirectorySector d0 = dirHdr) as Hh1.
  { unfold FileHeader_FetchFrom, d0, FileHeader_WriteBack.
    by rewrite readHeader_writeHeader_eq. }
  pose proof (FileHeader_Allocate_numBytes _ _ _ _ Hal1) as Hb0.
  pose proof (FileHeader_Allocate_numBytes _ _ _ _ Hal2) as Hb1.
  set (freeMapFile := OpenFile_new FreeMapSector d0).
  set (directoryFile := OpenFile_new DirectorySector d0).
  set (d1 := Directory_WriteBack (Directory_new NumDirEntries) directoryFile d0).
  set (d2 := BitMap_WriteBack m2 freeMapFile d1).
  rewrite BitMap_FetchFrom_Directory_WriteBack by done.
  unfold d2 at 1 2. rewrite BitMap_FetchFrom_WriteBack by (done || congruence).
  assert (OpenFile.hdr freeMapFile = mapHdr) as -> by done.
  rewrite Hb0, bitsWithin_whole by (done || lia).
  rewrite take_ge by lia.
  replace (Z.to_nat NumSectors - Z.to_nat NumSectors)%nat with 0%nat by lia.
  rewrite app_nil_r.
  assert (OpenFile_new DirectorySector (Directory_WriteBack _ directoryFile d2) = directoryFile)
    as ->.
  { apply OpenFile_new_headers.
    unfold d2, d1, BitMap_WriteBack, Directory_WriteBack.
    by rewrite !readHeader_transferData. }
  rewrite Directory_FetchFrom_WriteBack_whole;
    [| done | done | done | apply (seeded_directory DirectorySector DirectorySector)
     | by rewrite <- Hb1, <- Hh1 ].
  split_and!; [by apply Hkeep2, Hkeep1 | by apply Hkeep2, Hkeep1 | | done].
  apply (seeded_directory DirectorySector DirectorySector).
Qed.

End Bootstrap.

(** ** The operations at work on the concrete machine *)

Section Runs.
#[local] Existing Instance nachos.
#[local] Existing Instance plainIO.

Example format_lists_dot_and_dotdot :
  @FileSystem_new nachos true blankDisk = Some formatted
  ∧ Directory_entries (currentDirectory formatted)
    = [(".", 1, DIR_TYPE); ("..", 1, DIR_TYPE)]
  ∧ take 6 (persistedFreeMap formatted) = [true; true; true; true; true; false].
Proof. by vm_compute. Qed.

Example create_marks_header_and_data :
  fst (Create (Some "a") 100 formatted) = true
  ∧ Directory_entries (currentDirectory withA)
    = [(".", 1, DIR_TYPE); ("..", 1, DIR_TYPE); ("a", 5, FILE_TYPE)]
  ∧ FileHeader.dataSectors (FileHeader_FetchFrom 5 (disk withA)) = [6]
  ∧ take 8 (persistedFreeMap withA) = [true; true; true; true; true; true; true; false].
Proof. by vm_compute. Qed.

Example remove_clears_header_and_data :
  fst (Remove (Some "a") withA) = true
  ∧ take 8 (persistedFreeMap (snd (Remove (Some "a") withA)))
    = [true; true; true; true; true; false; false; false].
Proof. by vm_compute. Qed.

Example create_rejections :
  Create None 10 withA = (false, withA)
  ∧ Create (Some EmptyString) 10 withA = (false, withA)
  ∧ Create (Some "b") (-1) withA = (false, withA)
  ∧ Create (Some "a") 10 withA = (false, withA)
  ∧ Create (Some "b") 4000 withA = (false, withA).
Proof. by vm_compute. Qed.

Example open_twice_same_handle :
  fst (Open (Some "a") withA) = 0
  ∧ Open (Some "a") withAOpen = (0, withAOpen)
  ∧ occupancy withAOpen = 1%nat.
Proof. by vm_compute. Qed.

Example change_into_and_out_of_a_directory :
  let fs1 := snd (CreateDirectory "d" formatted) in
  let fs2 := snd (ChangeDirectory (Some "d") fs1) in
  let fs3 := snd (ChangeDirectory (Some "..") fs2) in
  threadDirectory fs2 = 5 ∧ threadDirectory fs3 = 1
  ∧ ChangeDirectory (Some ".") fs2 = (true, fs2)
  ∧ fst (ChangeDirectory (Some "a") withA) = false.
Proof. by vm_compute. Qed.

Example positional_transfers :
  let w := WriteAt 0 (Some [1; 2; 3]) 3 0 withAOpen in
  let r := ReadAt 0 (Some []) 5 1 (snd w) in
  fst w = 3 ∧ fst r = (5, [2; 3; 0; 0; 0])
  ∧ OpenFileTableEntry.currentPosition (slot 0 (snd w)) = 0
  ∧ OpenFileTableEntry.currentPosition (slot 0 (snd r)) = 5.
Proof. by vm_compute. Qed.

(** *** The theorems at concrete inputs *)

Lemma Create_failure_writes_nothing_witness :
  fst (Create (Some "b") 4000 formatted) = false
  ∧ writes (disk (snd (Create (Some "b") 4000 formatted))) = writes (disk formatted)
  ∧ snd (Create (Some "b") 4000 formatted) = formatted.
Proof.
  split; [by vm_compute |].
  apply Create_failure_writes_nothing. by vm_compute.
Defined.



(** Each of the two conditions on the current directory is needed on its
    own.  In the file "z" of length 0, whose sector is in use, the table does
    not fit; in the directory "d" after [Remove(".")] has released its
    sector, the table fits and the sector is free, so that the [Create] takes
    it for the new header. *)
Example Create_then_Remove_needs_the_table_to_fit :
  let fs := SetCurrentDirectory 5 (snd (Create (Some "z") 0 formatted)) in
  BitMap_Test (threadDirectory fs) (persistedFreeMap fs) = true
  ∧ FileHeader.numBytes (FileHeader_FetchFrom (threadDirectory fs) (disk fs)) = 0
  ∧ fst (Create (Some "b") 10 fs) = true
  ∧ fst (Remove (Some "b") (snd (Create (Some "b") 10 fs))) = false.
Proof. by vm_compute. Qed.

Example Create_then_Remove_needs_the_directory_in_use :
  let fs := snd (Remove (Some ".")
                   (snd (ChangeDirectory (Some "d") (snd (CreateDirectory "d" formatted))))) in
  BitMap_Test (threadDirectory fs) (persistedFreeMap fs) = false
  ∧ FileHeader.numBytes (FileHeader_FetchFrom (threadDirectory fs) (disk fs)) = DirectoryFileSize
  ∧ fst (Create (Some "x") 0 fs) = true
  ∧ fst (Remove (Some "x") (snd (Create (Some "x") 0 fs))) = false.
Proof. by vm_compute. Qed.

Lemma Create_existing_name_fails_witness :
  present "a" (currentDirectory withA)
  ∧ Create (Some "a") 7 withA = (false, withA).
Proof.
  assert (present "a" (currentDirectory withA)) as Hp
    by (vm_compute; eexists; reflexivity).
  split; [exact Hp |]. by apply Create_existing_name_fails.
Defined.

Lemma Open_already_open_witness :
  openFilesTable withAOpen !! 0%nat = Some (slot 0 withAOpen)
  ∧ OpenFileTableEntry.sector (slot 0 withAOpen)
    = Directory_Find "a" (currentDirectory withAOpen)
  ∧ ∃ (i : nat) (e' : OpenFileTableEntry.t),
      Open (Some "a") withAOpen = (Z.of_nat i, withAOpen)
      ∧ (i ≤ 0)%nat
      ∧ openFilesTable withAOpen !! i = Some e'
      ∧ OpenFileTableEntry.inUse e' = true
      ∧ OpenFileTableEntry.sector e' = OpenFileTableEntry.sector (slot 0 withAOpen)
      ∧ occupancy (snd (Open (Some "a") withAOpen)) = occupancy withAOpen
      ∧ ((∀ k e'', openFilesTable withAOpen !! k = Some e'' →
                   OpenFileTableEntry.inUse e'' = true →
                   OpenFileTableEntry.sector e'' = OpenFileTableEntry.sector (slot 0 withAOpen) →
                   k = 0%nat) → i = 0%nat).
Proof.
  split; [by vm_compute |]. split; [by vm_compute |].
  apply (Open_already_open "a" 0 (slot 0 withAOpen) withAOpen).
  - discriminate.
  - by vm_compute.
  - cbn. lia.
  - by vm_compute.
  - by vm_compute.
  - by vm_compute.
Defined.

Lemma format_bootstraps_witness :
  ∃ fs, FileSystem_new true blankDisk = Some fs
        ∧ BitMap_Test FreeMapSector (persistedFreeMap fs) = true
        ∧ BitMap_Test DirectorySector (persistedFreeMap fs) = true
        ∧ Directory_entries (loadDirectory DirectorySector (disk fs))
          = [(".", DirectorySector, DIR_TYPE); ("..", DirectorySector, DIR_TYPE)]
        ∧ threadDirectory fs = DirectorySector.
Proof. apply format_bootstraps; by vm_compute. Defined.


Lemma Open_missing_name_witness :
  Directory_FindIndex "missing" (currentDirectory withAOpen) = None
  ∧ Open (Some "missing") withAOpen = (INVALID_FILE_HANDLE, withAOpen).
Proof.
  split; [by vm_compute |]. apply Open_missing_name. by vm_compute.
Defined.

Lemma invalid_transfer_is_void_witness :
  OpenFileTableEntry.inUse (slot 1 withAOpen) = false
  ∧ Read 1 (Some [7]) 1 withAOpen = (0, [], withAOpen)
  ∧ Write 1 (Some [7]) 1 withAOpen = (0, withAOpen)
  ∧ ReadAt 1 (Some [7]) 1 0 withAOpen = (0, [], withAOpen)
  ∧ WriteAt 1 (Some [7]) 1 0 withAOpen = (0, withAOpen).
Proof.
  split; [by vm_compute |].
  apply (invalid_transfer_is_void 1 (Some [7]) 1 0 withAOpen).
  left. do 2 right. left. by vm_compute.
Defined.

Lemma positional_cursor_asymmetry_witness :
  IsValidHandle 0 withAOpen = true
  ∧ OpenFileTableEntry.currentPosition (slot 0 (snd (ReadAt 0 (Some []) 5 1 withAOpen)))
    = int_add (OpenFileTableEntry.currentPosition (slot 0 withAOpen))
              (fst (fst (ReadAt 0 (Some []) 5 1 withAOpen)))
  ∧ OpenFileTableEntry.currentPosition (slot 0 (snd (WriteAt 0 (Some []) 5 1 withAOpen)))
    = OpenFileTableEntry.currentPosition (slot 0 withAOpen).
Proof.
  split; [by vm_compute |]. apply positional_cursor_asymmetry. by vm_compute.
Defined.

End Runs.

(** ** Closing files *)

Section Closing.
Context `{M : Machine}.

(** Validity of a handle after [Close]: the closed handle is no longer
    valid, the others are as before. *)
Lemma IsValidHandle_Close (h i : FileHandle) (fs : FileSystem) :
  IsValidHandle h (Close i fs)
  = if decide (h = i) then false else IsValidHandle h fs.
Proof.
  unfold Close. destruct (IsValidHandle i fs) eqn:Hi; simpl.
  - destruct (IsValidHandle_slot i fs Hi) as (e & f & He & _ & _).
    apply lookup_lt_Some in He as Hlt.
    unfold IsValidHandle in Hi |- *. simpl.
    apply andb_true_iff in Hi as [Hi _]. apply andb_true_iff in Hi as [Hi0 _].
    apply Z.leb_le in Hi0.
    case_decide as Heq.
    + subst h. rewrite list_lookup_insert_eq by done. simpl.
      by rewrite andb_false_r.
    + destruct (Z.leb_spec 0 h); [| done].
      rewrite list_lookup_insert_ne by lia. done.
  - case_decide as Heq; [by subst h | done].
Qed.

(** X1. [Close] on a valid handle gives the slot the values of a free slot,
    leaves every other slot, the device and the current directory as they
    were, and the handle is no longer valid. *)
Theorem Close_releases_slot (h : FileHandle) (fs : FileSystem) :
  IsValidHandle h fs = true →
  openFilesTable (Close h fs) !! Z.to_nat h = Some OpenFileTableEntry.free
  ∧ (∀ j : nat, j ≠ Z.to_nat h →
       openFilesTable (Close h fs) !! j = openFilesTable fs !! j)
  ∧ disk (Close h fs) = disk fs
  ∧ threadDirectory (Close h fs) = threadDirectory fs
  ∧ IsValidHandle h (Close h fs) = false.
Proof.
  intros Hv. split_and!.
  - unfold Close. rewrite Hv. simpl.
    destruct (IsValidHandle_slot h fs Hv) as (e & f & He & _ & _).
    apply list_lookup_insert_eq. by eapply lookup_lt_Some.
  - intros j Hj. unfold Close. rewrite Hv. simpl.
    by apply list_lookup_insert_ne.
  - unfold Close. by rewrite Hv.
  - unfold Close. by rewrite Hv.
  - rewrite IsValidHandle_Close. by case_decide.
Qed.

(** X2. A handle that is not valid, an already closed one in particular, is
    rejected by [Close]: closing twice is closing once. *)
Theorem Close_twice (h : FileHandle) (fs : FileSystem) :
  Close h (Close h fs) = Close h fs.
Proof.
  pose proof (IsValidHandle_Close h h fs) as Hinv.
  rewrite decide_True in Hinv by done.
  unfold Close at 1. by rewrite Hinv.
Qed.

Lemma CloseAll_from_frame (n : nat) (first : Z) (fs : FileSystem) :
  disk (CloseAll_from n first fs) = disk fs
  ∧ threadDirectory (CloseAll_from n first fs) = threadDirectory fs
  ∧ length (openFilesTable (CloseAll_from n first fs)) = length (openFilesTable fs).
Proof.
  revert first fs. induction n as [| n IH]; intros first fs; simpl; [done |].
  destruct (IH (first + 1)
              (if OpenFileTableEntry.inUse (slot first fs) then Close first fs else fs))
    as (-> & -> & ->).
  destruct (OpenFileTableEntry.inUse (slot first fs)); [| done].
  unfold Close. destruct (negb (IsValidHandle first fs)); [done |]. simpl.
  by rewrite length_insert.
Qed.

(** After the loop over [first .. first + n - 1], a handle is valid only if
    it was valid before and lies outside this range. *)
Lemma IsValidHandle_CloseAll_from (n : nat) (first h : Z) (fs : FileSystem) :
  IsValidHandle h (CloseAll_from n first fs)
  = if decide (first ≤ h < first + Z.of_nat n) then false else IsValidHandle h fs.
Proof.
  revert first fs. induction n as [| n IH]; intros first fs.
  - simpl. case_decide; [lia | done].
  - cbn [CloseAll_from]. rewrite IH.
    set (fs' := if OpenFileTableEntry.inUse (slot first fs) then Close first fs else fs).
    assert (IsValidHandle h fs'
            = if decide (h = first) then false else IsValidHandle h fs) as ->.
    { unfold fs'. destruct (OpenFileTableEntry.inUse (slot first fs)) eqn:Hu.
      - apply IsValidHandle_Close.
      - case_decide as Heq; [| done]. subst h.
        apply IsValidHandle_false_iff. by do 2 right; left. }
    repeat case_decide; try done; lia.
Qed.

(** X3. After [CloseAll] no handle is valid; the device and the current
    directory are as they were. *)
Theorem CloseAll_leaves_no_valid_handle (fs : FileSystem) :
  (∀ h : FileHandle, IsValidHandle h (CloseAll fs) = false)
  ∧ disk (CloseAll fs) = disk fs
  ∧ threadDirectory (CloseAll fs) = threadDirectory fs.
Proof.
  split; [| by destruct (CloseAll_from_frame MAX_OPEN_FILES 0 fs) as (? & ? & _)].
  intros h. unfold CloseAll. rewrite IsValidHandle_CloseAll_from.
  case_decide; [done |].
  unfold IsValidHandle.
  destruct (Z.leb_spec 0 h), (Z.ltb_spec h (Z.of_nat MAX_OPEN_FILES)); try done; lia.
Qed.

End Closing.

(** ** Opening files: the slot taken *)

Section Slots.
Context `{M : Machine}.

(** [FindFreeSlot] yields the first slot that is not in use, among the
    [MAX_OPEN_FILES] slots of the table, and the sentinel when all of them
    are in use. *)
Lemma FindFreeSlot_cases (fs : FileSystem) :
  (FindFreeSlot fs = INVALID_FILE_HANDLE
   ∧ ∀ (j : nat) (e : OpenFileTableEntry.t),
       (j < MAX_OPEN_FILES)%nat → openFilesTable fs !! j = Some e →
       OpenFileTableEntry.inUse e = true)
  ∨ (∃ (i : nat) (e : OpenFileTableEntry.t),
       FindFreeSlot fs = Z.of_nat i
       ∧ (i < MAX_OPEN_FILES)%nat
       ∧ openFilesTable fs !! i = Some e
       ∧ OpenFileTableEntry.inUse e = false
       ∧ ∀ (j : nat) (e' : OpenFileTableEntry.t),
           (j < i)%nat → openFilesTable fs !! j = Some e' →
           OpenFileTableEntry.inUse e' = true).
Proof.
  unfold FindFreeSlot.
  destruct (list_find _ (take MAX_OPEN_FILES (openFilesTable fs))) as [[i e]|] eqn:Hfind.
  - right. apply list_find_Some in Hfind as (Hi & Hfree & Hmin).
    apply lookup_take_Some in Hi as [Hi Hlt].
    exists i, e. split_and!; try done.
    intros j e' Hj He'. specialize (Hmin j e').
    rewrite lookup_take_lt in Hmin by lia. specialize (Hmin He' Hj).
    by destruct (OpenFileTableEntry.inUse e').
  - left. split; [done |]. apply list_find_None in Hfind.
    intros j e Hj He.
    eapply Forall_lookup_1 in Hfind; [| by rewrite lookup_take_lt].
    by destruct (OpenFileTableEntry.inUse e).
Qed.

(** X4. [FindFreeSlot] yields the first slot that is not in use, among the
    [MAX_OPEN_FILES] slots of the table, and the sentinel when all of them
    are in use. *)
Theorem FindFreeSlot_first_free (fs : FileSystem) :
  (FindFreeSlot fs = INVALID_FILE_HANDLE
   ∧ ∀ (j : nat) (e : OpenFileTableEntry.t),
       (j < MAX_OPEN_FILES)%nat → openFilesTable fs !! j = Some e →
       OpenFileTableEntry.inUse e = true)
  ∨ (∃ (i : nat) (e : OpenFileTableEntry.t),
       FindFreeSlot fs = Z.of_nat i
       ∧ (i < MAX_OPEN_FILES)%nat
       ∧ openFilesTable fs !! i = Some e
       ∧ OpenFileTableEntry.inUse e = false
       ∧ ∀ (j : nat) (e' : OpenFileTableEntry.t),
           (j < i)%nat → openFilesTable fs !! j = Some e' →
           OpenFileTableEntry.inUse e' = true).
Proof.
  destruct (FindFreeSlot_cases fs) as [Hfull | Hfree]; [by left | by right].
Qed.

(** What [Open] does to the state: nothing, or one slot that was free is
    filled for a sector that no slot in use referenced. *)
Lemma Open_cases (name : option string) (fs : FileSystem) :
  snd (Open name fs) = fs
  ∨ ∃ (n : string) (i : nat) (e : OpenFileTableEntry.t),
      let s := Directory_Find n (currentDirectory fs) in
      name = Some n
      ∧ notOpen s fs
      ∧ FindFreeSlot fs = Z.of_nat i
      ∧ (i < MAX_OPEN_FILES)%nat
      ∧ openFilesTable fs !! i = Some e
      ∧ OpenFileTableEntry.inUse e = false
      ∧ Open name fs
        = (Z.of_nat i,
           set_table (<[i := OpenFileTableEntry.mk true (Some (OpenFile_new s (disk fs))) s
                               (String.substring 0 31 n) 0]> (openFilesTable fs)) fs).
Proof.
  destruct name as [n|]; [| by left].
  unfold Open, GetCurrentDirectory. cbv zeta.
  fold (loadDirectory (threadDirectory fs) (disk fs)). fold (currentDirectory fs).
  destruct (nullOrEmpty (Some n)); [by left |].
  destruct (Directory_Find n (currentDirectory fs) =? -1); [by left |].
  destruct (list_find _ (take MAX_OPEN_FILES (openFilesTable fs))) as [[k e]|] eqn:Hopen;
    [by left |].
  destruct (Z.eqb_spec (FindFreeSlot fs) INVALID_FILE_HANDLE) as [| Hfree]; [by left |].
  right.
  destruct (FindFreeSlot_cases fs) as [[Hnone _] | (i & e & Hi & Hlt & He & Hu & _)];
    [done |].
  exists n, i, e. cbv zeta. rewrite Hi, Nat2Z.id. split_and!; try done.
  intros j e' Hj He' Hu' Hs.
  apply list_find_None in Hopen.
  eapply Forall_lookup_1 in Hopen; [| by rewrite lookup_take_lt].
  by apply Hopen.
Qed.

(** When the name resolves to a sector that no slot in use references
    and a slot is free, [Open] fills the first free slot with an I/O object
    on that sector, the sector, the first 31 characters of the name and
    position 0; it returns the handle of the slot, which is then valid, and
    leaves the other slots, the device and the current directory alone. *)
Lemma Open_new_slot (n : string) (fs : FileSystem) :
  n ≠ EmptyString →
  Directory_Find n (currentDirectory fs) ≠ -1 →
  notOpen (Directory_Find n (currentDirectory fs)) fs →
  FindFreeSlot fs ≠ INVALID_FILE_HANDLE →
  let s := Directory_Find n (currentDirectory fs) in
  let h := FindFreeSlot fs in
  let fs' := snd (Open (Some n) fs) in
  fst (Open (Some n) fs) = h
  ∧ openFilesTable fs' !! Z.to_nat h
    = Some (OpenFileTableEntry.mk true (Some (OpenFile_new s (disk fs))) s
              (String.substring 0 31 n) 0)
  ∧ (∀ j : nat, j ≠ Z.to_nat h → openFilesTable fs' !! j = openFilesTable fs !! j)
  ∧ disk fs' = disk fs
  ∧ threadDirectory fs' = threadDirectory fs
  ∧ IsValidHandle h fs' = true.
Proof.
  intros Hn Hs Hnot Hfree. cbv zeta.
  destruct (FindFreeSlot_cases fs) as [[Hnone _] | (i & e & Hi & Hlt & He & Hu & _)];
    [done |].
  assert (Open (Some n) fs
          = (Z.of_nat i,
             set_table (<[i := OpenFileTableEntry.mk true
                                 (Some (OpenFile_new (Directory_Find n (currentDirectory fs))
                                          (disk fs)))
                                 (Directory_Find n (currentDirectory fs))
                                 (String.substring 0 31 n) 0]> (openFilesTable fs)) fs))
    as ->.
  { unfold Open, GetCurrentDirectory. cbv zeta.
    fold (loadDirectory (threadDirectory fs) (disk fs)). fold (currentDirectory fs).
    assert (nullOrEmpty (Some n) = false) as ->
      by (simpl; by apply bool_decide_eq_false).
    apply Z.eqb_neq in Hs as ->.
    destruct (list_find _ (take MAX_OPEN_FILES (openFilesTable fs))) as [[k e']|] eqn:Hopen.
    { apply list_find_Some in Hopen as (Hk & [Hu' Hs'] & _).
      apply lookup_take_Some in Hk as [Hk Hklt].
      by destruct (Hnot k e' Hklt Hk Hu'). }
    apply Z.eqb_neq in Hfree as ->. by rewrite Hi, Nat2Z.id. }
  rewrite Hi, Nat2Z.id. cbn [fst snd set_table openFilesTable disk threadDirectory].
  apply lookup_lt_Some in He as Hlen.
  split_and!; try done.
  - by apply list_lookup_insert_eq.
  - intros j Hj. by apply list_lookup_insert_ne.
  - unfold IsValidHandle. cbn [set_table openFilesTable].
    rewrite Nat2Z.id, list_lookup_insert_eq by done. simpl.
    destruct (Z.leb_spec 0 (Z.of_nat i)), (Z.ltb_spec (Z.of_nat i) (Z.of_nat MAX_OPEN_FILES));
      try done; lia.
Qed.

(** X5. When the name resolves to a sector that no slot in use references
    and a slot is free, [Open] fills the first free slot with an I/O object
    on that sector, the sector, the first 31 characters of the name and
    position 0; it returns the handle of the slot, which is then valid, and
    leaves the other slots, the device and the current directory alone. *)
Theorem Open_fills_first_free_slot (n : string) (fs : FileSystem) :
  n ≠ EmptyString →
  Directory_Find n (currentDirectory fs) ≠ -1 →
  notOpen (Directory_Find n (currentDirectory fs)) fs →
  FindFreeSlot fs ≠ INVALID_FILE_HANDLE →
  let s := Directory_Find n (currentDirectory fs) in
  let h := FindFreeSlot fs in
  let fs' := snd (Open (Some n) fs) in
  fst (Open (Some n) fs) = h
  ∧ openFilesTable fs' !! Z.to_nat h
    = Some (OpenFileTableEntry.mk true (Some (OpenFile_new s (disk fs))) s
              (String.substring 0 31 n) 0)
  ∧ (∀ j : nat, j ≠ Z.to_nat h → openFilesTable fs' !! j = openFilesTable fs !! j)
  ∧ disk fs' = disk fs
  ∧ threadDirectory fs' = threadDirectory fs
  ∧ IsValidHandle h fs' = true.
Proof.
  intros Hn Hs Hnot Hfree. cbv zeta.
  destruct (Open_new_slot n fs Hn Hs Hnot Hfree) as (Hh & Hnew & Hothers & Hd & Ht & Hv).
  by split_and!.
Qed.

(** X6. When the name resolves to a sector that no slot in use references
    and every slot is in use, [Open] returns the sentinel and changes
    nothing. *)
Theorem Open_table_full (n : string) (fs : FileSystem) :
  notOpen (Directory_Find n (currentDirectory fs)) fs →
  (∀ (j : nat) (e : OpenFileTableEntry.t),
     (j < MAX_OPEN_FILES)%nat → openFilesTable fs !! j = Some e →
     OpenFileTableEntry.inUse e = true) →
  Open (Some n) fs = (INVALID_FILE_HANDLE, fs).
Proof.
  intros Hnot Hfull.
  unfold Open, GetCurrentDirectory. cbv zeta.
  fold (loadDirectory (threadDirectory fs) (disk fs)). fold (currentDirectory fs).
  destruct (nullOrEmpty (Some n)); [done |].
  destruct (Directory_Find n (currentDirectory fs) =? -1); [done |].
  destruct (list_find _ (take MAX_OPEN_FILES (openFilesTable fs))) as [[k e']|] eqn:Hopen.
  { apply list_find_Some in Hopen as (Hk & [Hu' Hs'] & _).
    apply lookup_take_Some in Hk as [Hk Hklt].
    by destruct (Hnot k e' Hklt Hk Hu'). }
  destruct (FindFreeSlot_cases fs) as [[-> _] | (i & e & _ & Hlt & He & Hu & _)].
  - by rewrite Z.eqb_refl.
  - rewrite (Hfull i e Hlt He) in Hu. done.
Qed.

End Slots.

(** ** The consistency of the open-file table *)

Section Consistency.
Context `{M : Machine} `{IO : OpenFileIO}.

(** A table whose slots in use were already in use, on the same sector, and
    have an I/O object, is consistent when the former table was. *)
Lemma tableConsistent_narrow (fs fs' : FileSystem) :
  tableConsistent fs →
  (∀ (i : nat) (e' : OpenFileTableEntry.t),
     (i < MAX_OPEN_FILES)%nat →
     openFilesTable fs' !! i = Some e' → OpenFileTableEntry.inUse e' = true →
     OpenFileTableEntry.openFile e' ≠ None
     ∧ ∃ e, openFilesTable fs !! i = Some e
            ∧ OpenFileTableEntry.inUse e = true
            ∧ OpenFileTableEntry.sector e = OpenFileTableEntry.sector e') →
  tableConsistent fs'.
Proof.
  intros Hc Hold i e' Hi He' Hu'.
  destruct (Hold i e' Hi He' Hu') as (Hobj & e & He & Hu & Hs).
  split; [done |].
  intros j e2' Hj He2' Hu2' Hs2.
  destruct (Hold j e2' Hj He2' Hu2') as (_ & e2 & He2 & Hu2 & Hs2').
  destruct (Hc i e Hi He Hu) as [_ Huniq].
  apply (Huniq j e2 Hj He2 Hu2). congruence.
Qed.

(** A slot that is as before meets the condition of [tableConsistent_narrow]. *)
Lemma tableConsistent_same_slot (fs : FileSystem) (i : nat) (e : OpenFileTableEntry.t) :
  tableConsistent fs →
  (i < MAX_OPEN_FILES)%nat →
  openFilesTable fs !! i = Some e → OpenFileTableEntry.inUse e = true →
  OpenFileTableEntry.openFile e ≠ None
  ∧ ∃ e0, openFilesTable fs !! i = Some e0
          ∧ OpenFileTableEntry.inUse e0 = true
          ∧ OpenFileTableEntry.sector e0 = OpenFileTableEntry.sector e.
Proof.
  intros Hc Hi He Hu. destruct (Hc i e Hi He Hu) as [Hobj _].
  split; [done |]. by exists e.
Qed.

Lemma tableConsistent_Close (h : FileHandle) (fs : FileSystem) :
  tableConsistent fs → tableConsistent (Close h fs).
Proof.
  intros Hc. unfold Close. destruct (IsValidHandle h fs) eqn:Hv; [| done]. simpl.
  apply (tableConsistent_narrow fs); [done |].
  intros i e' Hi He' Hu'. cbn [set_table openFilesTable] in He'.
  destruct (decide (i = Z.to_nat h)) as [-> | Hne].
  - destruct (IsValidHandle_slot h fs Hv) as (e & f & He & _ & _).
    rewrite list_lookup_insert_eq in He' by (by eapply lookup_lt_Some).
    by injection He' as <-.
  - rewrite list_lookup_insert_ne in He' by done.
    by apply tableConsistent_same_slot.
Qed.

Lemma tableConsistent_CloseAll_from (n : nat) (first : Z) (fs : FileSystem) :
  tableConsistent fs → tableConsistent (CloseAll_from n first fs).
Proof.
  revert first fs. induction n as [| n IH]; intros first fs Hc; simpl; [done |].
  apply IH. destruct (OpenFileTableEntry.inUse (slot first fs)); [| done].
  by apply tableConsistent_Close.
Qed.

(** A transfer keeps the slot in use, on its sector, with an I/O object. *)
Lemma tableConsistent_update_slot (h : FileHandle) (f : OpenFile.t) (pos : Z)
  (fs : FileSystem) :
  IsValidHandle h fs = true →
  tableConsistent fs → tableConsistent (update_slot h f pos fs).
Proof.
  intros Hv Hc.
  destruct (IsValidHandle_slot h fs Hv) as (e & f0 & He & Hs & Hf).
  assert (OpenFileTableEntry.inUse e = true) as Hu.
  { unfold IsValidHandle in Hv. rewrite He in Hv.
    apply andb_true_iff in Hv as [_ Hv]. by apply andb_true_iff in Hv as [Hv _]. }
  apply (tableConsistent_narrow fs); [done |].
  intros i e' Hi He' Hu'. unfold update_slot in He'. cbn [set_table openFilesTable] in He'.
  destruct (decide (i = Z.to_nat h)) as [-> | Hne].
  - rewrite list_lookup_insert_eq in He' by (by eapply lookup_lt_Some).
    injection He' as <-. rewrite Hs. simpl. split; [done |]. by exists e.
  - rewrite list_lookup_insert_ne in He' by done.
    by apply tableConsistent_same_slot.
Qed.

Lemma tableConsistent_set_disk (d : Disk) (fs : FileSystem) :
  tableConsistent fs → tableConsistent (set_disk d fs).
Proof. done. Qed.

(** X7. The consistency of the open-file table (every slot in use has an
    I/O object, no two slots in use reference the same sector) is kept by
    [Open], [Close], [CloseAll] and the four transfer operations. *)
Theorem tableConsistent_kept (fs : FileSystem) :
  tableConsistent fs →
  (∀ name, tableConsistent (snd (Open name fs)))
  ∧ (∀ h, tableConsistent (Close h fs))
  ∧ tableConsistent (CloseAll fs)
  ∧ (∀ h buf n, tableConsistent (snd (Read h buf n fs)))
  ∧ (∀ h buf n, tableConsistent (snd (Write h buf n fs)))
  ∧ (∀ h buf n pos, tableConsistent (snd (ReadAt h buf n pos fs)))
  ∧ (∀ h buf n pos, tableConsistent (snd (WriteAt h buf n pos fs))).
Proof.
  intros Hc. split_and!.
  - intros name.
    destruct (Open_cases name fs)
      as [-> | (n & i & e & _ & Hnot & _ & Hlt & He & Hu & ->)]; [done |].
    cbn [snd]. set (s := Directory_Find n (currentDirectory fs)) in *.
    apply lookup_lt_Some in He as Hlen.
    intros k ek Hk Hek Huk. cbn [set_table openFilesTable] in Hek.
    destruct (decide (k = i)) as [-> | Hne].
    + rewrite list_lookup_insert_eq in Hek by done. injection Hek as <-. simpl.
      split; [done |]. intros j ej Hj Hej Huj Hsj.
      cbn [set_table openFilesTable] in Hej.
      destruct (decide (j = i)) as [-> | Hne]; [done |].
      rewrite list_lookup_insert_ne in Hej by done.
      by destruct (Hnot j ej Hj Hej Huj).
    + rewrite list_lookup_insert_ne in Hek by done.
      destruct (Hc k ek Hk Hek Huk) as [Hobj Huniq]. split; [done |].
      intros j ej Hj Hej Huj Hsj. cbn [set_table openFilesTable] in Hej.
      destruct (decide (j = i)) as [-> | Hne'].
      * rewrite list_lookup_insert_eq in Hej by done. injection Hej as <-.
        simpl in Hsj. by destruct (Hnot k ek Hk Hek Huk).
      * rewrite list_lookup_insert_ne in Hej by done. by eapply Huniq.
  - intros h. by apply tableConsistent_Close.
  - by apply tableConsistent_CloseAll_from.
  - intros h buf n. unfold Read.
    destruct (IsValidHandle h fs) eqn:Hv; [| done]. simpl.
    destruct buf; [| done].
    destruct (OpenFileTableEntry.openFile (slot h fs)); [| done].
    destruct (OpenFile_Read _ _ _) as [[bytesRead data] f']. cbn [snd].
    by apply tableConsistent_update_slot.
  - intros h buf n. unfold Write.
    destruct (IsValidHandle h fs) eqn:Hv; [| done]. simpl.
    destruct buf; [| done].
    destruct (OpenFileTableEntry.openFile (slot h fs)); [| done].
    destruct (OpenFile_Write _ _ _ _) as [[bytesWritten f'] d']. cbn [snd].
    by apply tableConsistent_update_slot.
  - intros h buf n pos. unfold ReadAt.
    destruct (IsValidHandle h fs) eqn:Hv; [| done]. simpl.
    destruct buf; [| done].
    destruct (OpenFileTableEntry.openFile (slot h fs)); [| done].
    destruct (OpenFile_ReadAt _ _ _ _) as [bytesRead data]. cbn [snd].
    by apply tableConsistent_update_slot.
  - intros h buf n pos. unfold WriteAt.
    destruct (IsValidHandle h fs) eqn:Hv; [| done]. simpl.
    destruct buf; [| done].
    destruct (OpenFileTableEntry.openFile (slot h fs)); [| done].
    by destruct (OpenFile_WriteAt _ _ _ _ _) as [bytesWritten d'].
Qed.

End Consistency.

(** ** Sequential transfers *)

Section Sequential.
Context `{M : Machine} `{IO : OpenFileIO}.

(** What [update_slot] leaves of a valid handle's slot and of the others. *)
Lemma update_slot_spec (h : FileHandle) (f : OpenFile.t) (pos : Z) (fs : FileSystem) :
  IsValidHandle h fs = true →
  slot h (update_slot h f pos fs)
  = OpenFileTableEntry.mk (OpenFileTableEntry.inUse (slot h fs)) (Some f)
      (OpenFileTableEntry.sector (slot h fs)) (OpenFileTableEntry.filename (slot h fs)) pos
  ∧ (∀ j : nat, j ≠ Z.to_nat h →
       openFilesTable (update_slot h f pos fs) !! j = openFilesTable fs !! j)
  ∧ IsValidHandle h (update_slot h f pos fs) = true.
Proof.
  intros Hv. destruct (IsValidHandle_slot h fs Hv) as (e & f0 & He & Hs & Hf).
  apply lookup_lt_Some in He as Hlt.
  assert (openFilesTable (update_slot h f pos fs) !! Z.to_nat h
          = Some (OpenFileTableEntry.mk (OpenFileTableEntry.inUse (slot h fs)) (Some f)
                    (OpenFileTableEntry.sector (slot h fs))
                    (OpenFileTableEntry.filename (slot h fs)) pos)) as Hnew.
  { unfold update_slot. cbn [set_table openFilesTable]. by apply list_lookup_insert_eq. }
  split_and!.
  - unfold slot at 1. by rewrite Hnew.
  - intros j Hj. unfold update_slot. cbn [set_table openFilesTable].
    by apply list_lookup_insert_ne.
  - unfold IsValidHandle in Hv |- *. rewrite Hnew. rewrite He in Hv. rewrite Hs. simpl.
    apply andb_true_iff in Hv as [Hrange Hv]. apply andb_true_iff in Hv as [Hu _].
    by rewrite Hrange, Hu.
Qed.

(** X8. With a valid handle and a buffer, [Read] and [Write] return what the
    I/O object transfers and advance the slot's [currentPosition] by it (in
    [int] arithmetic); the slot stays in use on its sector under its name,
    the handle stays valid, the other slots are as they were, and [Read]
    leaves the device alone. *)
Theorem sequential_transfer_advances_cursor (h : FileHandle) (buf : Buffer) (numBytes : Z)
  (fs : FileSystem) :
  IsValidHandle h fs = true →
  let before := slot h fs in
  let r := Read h (Some buf) numBytes fs in
  let w := Write h (Some buf) numBytes fs in
  (OpenFileTableEntry.currentPosition (slot h (snd r))
   = int_add (OpenFileTableEntry.currentPosition before) (fst (fst r))
   ∧ OpenFileTableEntry.inUse (slot h (snd r)) = OpenFileTableEntry.inUse before
   ∧ OpenFileTableEntry.sector (slot h (snd r)) = OpenFileTableEntry.sector before
   ∧ OpenFileTableEntry.filename (slot h (snd r)) = OpenFileTableEntry.filename before
   ∧ (∀ j : nat, j ≠ Z.to_nat h →
        openFilesTable (snd r) !! j = openFilesTable fs !! j)
   ∧ IsValidHandle h (snd r) = true
   ∧ disk (snd r) = disk fs)
  ∧ (OpenFileTableEntry.currentPosition (slot h (snd w))
     = int_add (OpenFileTableEntry.currentPosition before) (fst w)
     ∧ OpenFileTableEntry.inUse (slot h (snd w)) = OpenFileTableEntry.inUse before
     ∧ OpenFileTableEntry.sector (slot h (snd w)) = OpenFileTableEntry.sector before
     ∧ OpenFileTableEntry.filename (slot h (snd w)) = OpenFileTableEntry.filename before
     ∧ (∀ j : nat, j ≠ Z.to_nat h →
          openFilesTable (snd w) !! j = openFilesTable fs !! j)
     ∧ IsValidHandle h (snd w) = true).
Proof.
  intros Hv. cbv zeta.
  destruct (IsValidHandle_slot h fs Hv) as (e & f & He & Hs & Hf).
  unfold Read, Write. rewrite Hv, Hs, Hf. simpl negb. cbv iota.
  destruct (OpenFile_Read f (disk fs) numBytes) as [[bytesRead data] f'].
  destruct (OpenFile_Write f (disk fs) buf numBytes) as [[bytesWritten f''] d'].
  cbn [fst snd]. split.
  - destruct (update_slot_spec h f' (int_add (OpenFileTableEntry.currentPosition e) bytesRead)
                fs Hv) as (Hslot & Hothers & Hvalid).
    rewrite Hslot, Hs. by split_and!.
  - assert (IsValidHandle h (set_disk d' fs) = true) as Hv' by done.
    destruct (update_slot_spec h f''
                (int_add (OpenFileTableEntry.currentPosition e) bytesWritten)
                (set_disk d' fs) Hv') as (Hslot & Hothers & Hvalid).
    rewrite Hslot. change (slot h (set_disk d' fs)) with (slot h fs). rewrite Hs.
    by split_and!.
Qed.

End Sequential.

(** ** Removing files *)

Section Removing.
Context `{M : Machine}.

(** Replacing an element that does not satisfy [P] by another that does not
    leaves the first element satisfying [P] where it was. *)
Lemma list_find_insert_irrelevant {A} (P : A → Prop) `{!∀ x, Decision (P x)}
  (l : list A) (i : nat) (x y : A) :
  l !! i = Some x → ¬ P x → ¬ P y → list_find P (<[i := y]> l) = list_find P l.
Proof.
  revert i. induction l as [| a l IH]; intros [| i] Hi Hx Hy; try done.
  - injection Hi as ->. csimpl. by rewrite !decide_False.
  - csimpl in *. case_decide; [done |]. by rewrite (IH i).
Qed.

(** Names other than the one added resolve as before. *)
Lemma Directory_Add_other (n n' : string) (s : Z) (ty : EntryType) (table table' : Directory) :
  Directory_Add n s ty table = (true, table') → n' ≠ n →
  Directory_FindIndex n' table' = Directory_FindIndex n' table.
Proof.
  unfold Directory_Add.
  destruct (Directory_FindIndex n table); [done |].
  destruct (list_find _ table) as [[i e]|] eqn:Hfree; [| done].
  intros [= <-] Hne. apply list_find_Some in Hfree as (Hi & Hu & _).
  unfold Directory_FindIndex.
  apply (list_find_insert_irrelevant _ _ _ e); [done | |].
  - intros [Hu' _]. congruence.
  - intros [_ Hn]. simpl in Hn. congruence.
Qed.

(** Names other than the one removed resolve as before. *)
Lemma Directory_Remove_other (n n' : string) (table : Directory) :
  n' ≠ n →
  Directory_FindIndex n' (Directory_Remove n table).2 = Directory_FindIndex n' table.
Proof.
  intros Hne. unfold Directory_Remove.
  destruct (Directory_FindIndex n table) as [[i e]|] eqn:Hfind; [| done]. simpl.
  apply list_find_Some in Hfind as (Hi & [Hu Hn] & _).
  unfold Directory_FindIndex.
  apply (list_find_insert_irrelevant _ _ _ e); [done | |].
  - intros [_ Hn']. congruence.
  - by intros [Hu' _].
Qed.

Lemma Directory_Remove_length (n : string) (table : Directory) :
  length (Directory_Remove n table).2 = length table.
Proof.
  unfold Directory_Remove. destruct (Directory_FindIndex n table) as [[i e]|]; [| done].
  apply length_insert.
Qed.

(** When one active entry at most carries the name, the name is absent once
    removed. *)
Lemma Directory_Remove_absent (n : string) (table : Directory) :
  (∀ (j k : nat) (ej ek : DirectoryEntry.t),
     table !! j = Some ej → table !! k = Some ek →
     DirectoryEntry.inUse ej = true → DirectoryEntry.inUse ek = true →
     DirectoryEntry.name ej = n → DirectoryEntry.name ek = n → j = k) →
  Directory_FindIndex n (Directory_Remove n table).2 = None.
Proof.
  intros Huniq. unfold Directory_Remove.
  destruct (Directory_FindIndex n table) as [[i e]|] eqn:Hfind; [| done]. simpl.
  apply list_find_Some in Hfind as (Hi & [Hu Hn] & _).
  apply list_find_None, Forall_lookup. intros j ej Hj [Huj Hnj].
  destruct (decide (j = i)) as [-> | Hne].
  - rewrite list_lookup_insert_eq in Hj by (by eapply lookup_lt_Some).
    by injection Hj as <-.
  - rewrite list_lookup_insert_ne in Hj by done.
    by apply Hne, (Huniq j i ej e).
Qed.

(** [Remove] leaves the entries beyond the active ones as they are. *)
Lemma Directory_Remove_tail (n : string) (k : nat) (table : Directory) :
  drop k table = replicate (length table - k) DirectoryEntry.unused →
  drop k (Directory_Remove n table).2 = replicate (length table - k) DirectoryEntry.unused.
Proof.
  intros Htail. unfold Directory_Remove.
  destruct (Directory_FindIndex n table) as [[i e]|] eqn:Hfind; [| done]. simpl.
  apply list_find_Some in Hfind as (Hi & [Hu Hn] & _).
  destruct (decide (i < k)%nat) as [Hlt | Hge]; [by rewrite drop_insert_lt |].
  assert (drop k table !! (i - k)%nat = Some e) as He.
  { rewrite lookup_drop. by replace (k + (i - k))%nat with i by lia. }
  rewrite Htail in He. by apply lookup_replicate in He as [-> _].
Qed.

(** [Remove] returns TRUE exactly when the name is non-null and
    non-empty, the current-directory sector is in range and the name
    resolves in the current directory; when it returns FALSE it has issued
    no device write and the state is as it was. *)
Lemma Remove_cases (name : option string) (fs : FileSystem) :
  (fst (Remove name fs) = true ↔
     ∃ n, name = Some n ∧ n ≠ EmptyString
          ∧ validSector (threadDirectory fs) = true
          ∧ Directory_Find n (currentDirectory fs) ≠ -1)
  ∧ (fst (Remove name fs) = false → snd (Remove name fs) = fs).
Proof.
  destruct name as [n|]; simpl.
  2: { split; [| done]. split; [done | by intros (n & [=] & _)]. }
  unfold GetCurrentDirectory.
  fold (loadDirectory (threadDirectory fs) (disk fs)). fold (currentDirectory fs).
  destruct (bool_decide (n = EmptyString)) eqn:Hn; simpl.
  { apply bool_decide_eq_true in Hn. split; [| done].
    split; [done |]. by intros (n' & [= <-] & Hne & _). }
  apply bool_decide_eq_false in Hn.
  destruct (validSector (threadDirectory fs)) eqn:Hv; simpl.
  2: { split; [| done]. split; [done |]. by intros (n' & _ & _ & ? & _). }
  destruct (Z.eqb_spec (Directory_Find n (currentDirectory fs)) (-1)) as [Hf | Hf]; simpl.
  { split; [| done]. split; [done |]. by intros (n' & [= <-] & _ & _ & ?). }
  split; [| done]. split; [intros _ | done]. by exists n.
Qed.

(** X9. [Remove] returns TRUE exactly when the name is non-null and
    non-empty, the current-directory sector is in range and the name
    resolves in the current directory; when it returns FALSE it has issued
    no device write and the state is as it was. *)
Theorem Remove_succeeds_iff (name : option string) (fs : FileSystem) :
  (fst (Remove name fs) = true ↔
     ∃ n, name = Some n ∧ n ≠ EmptyString
          ∧ validSector (threadDirectory fs) = true
          ∧ Directory_Find n (currentDirectory fs) ≠ -1)
  ∧ (fst (Remove name fs) = false → snd (Remove name fs) = fs).
Proof.
  destruct (Remove_cases name fs) as [Hiff Hfail]. by split.
Qed.

(** X10. A [Remove] that succeeds writes the free-space map and then the
    current directory, and no header: the header of the removed file stays
    on the device.  It leaves the open-file table alone, so a handle open on
    the removed file stays valid.  In the persisted directory every other
    name resolves as before, and the name removed is absent when one active
    entry at most carried it. *)
Theorem Remove_effects (n : string) (fs : FileSystem) :
  fst (Remove (Some n) fs) = true →
  let removed := snd (Remove (Some n) fs) in
  (∃ (freeMap : BitMap) (directory : Directory),
     writes (disk removed)
     = writes (disk fs)
       ++ [WriteData (OpenFile.hdrSector (freeMapFile fs)) (DataBitMap freeMap);
           WriteData (threadDirectory fs) (DataDirectory directory)])
  ∧ headers (disk removed) = headers (disk fs)
  ∧ openFilesTable removed = openFilesTable fs
  ∧ threadDirectory removed = threadDirectory fs
  ∧ (∀ n', n' ≠ n →
       Directory_FindIndex n' (currentDirectory removed)
       = Directory_FindIndex n' (currentDirectory fs))
  ∧ ((∀ (j k : nat) (ej ek : DirectoryEntry.t),
        currentDirectory fs !! j = Some ej → currentDirectory fs !! k = Some ek →
        DirectoryEntry.inUse ej = true → DirectoryEntry.inUse ek = true →
        DirectoryEntry.name ej = n → DirectoryEntry.name ek = n → j = k) →
     Directory_FindIndex n (currentDirectory removed) = None).
Proof.
  intros Hok. cbv zeta.
  destruct (proj1 (proj1 (Remove_cases (Some n) fs)) Hok)
    as (n' & [= <-] & Hn & Hv & Hf).
  unfold Remove, GetCurrentDirectory. cbv zeta.
  fold (loadDirectory (threadDirectory fs) (disk fs)). fold (currentDirectory fs).
  fold (persistedFreeMap fs).
  assert (nullOrEmpty (Some n) = false) as ->
    by (simpl; by apply bool_decide_eq_false).
  rewrite Hv. simpl negb. cbv iota.
  apply Z.eqb_neq in Hf as ->. cbn [snd].
  assert (∀ d, readHeader (threadDirectory fs) d = readHeader (threadDirectory fs) (disk fs) →
            currentDirectory
              (set_disk (Directory_WriteBack (Directory_Remove n (currentDirectory fs)).2
                           (OpenFile_new (threadDirectory fs) (disk fs)) d) fs)
            = (Directory_Remove n (currentDirectory fs)).2) as Hdir.
  { intros d Hd. unfold currentDirectory at 1, loadDirectory.
    cbn [set_disk disk threadDirectory].
    rewrite (OpenFile_new_headers _ _ (disk fs))
      by (unfold Directory_WriteBack; by rewrite readHeader_transferData).
    rewrite Directory_FetchFrom_WriteBack;
      [| done | done | done | by rewrite Directory_Remove_length, currentDirectory_length].
    apply transfer_whole; [by rewrite Directory_Remove_length, currentDirectory_length |].
    rewrite <- (currentDirectory_length fs) at 2.
    apply Directory_Remove_tail. rewrite currentDirectory_length.
    apply loadDirectory_tail. }
  specialize (Hdir (BitMap_WriteBack
                      (BitMap_Clear (Directory_Find n (currentDirectory fs))
                         (FileHeader_Deallocate
                            (FileHeader_FetchFrom (Directory_Find n (currentDirectory fs))
                               (disk fs))
                            (persistedFreeMap fs)))
                      (freeMapFile fs) (disk fs)) eq_refl).
  split_and!.
  - eexists _, _. cbn [set_disk disk]. unfold Directory_WriteBack, BitMap_WriteBack,
      transferData, OpenFile_new. cbn [writes OpenFile.hdrSector]. by rewrite <- app_assoc.
  - done.
  - done.
  - done.
  - intros n' Hne. rewrite Hdir. by apply Directory_Remove_other.
  - intros Huniq. rewrite Hdir. by apply Directory_Remove_absent.
Qed.

End Removing.

(** ** Creating files: what is persisted, and opening what was created *)

Section Creating.
Context `{M : Machine}.

(** A [Create] that succeeds, in a current directory that is not the
    free-map file itself, whose file holds the whole table of entries and
    whose sector is in use in the persisted map, writes the new header, then
    the directory, then the free-space map.  In the persisted directory the
    name then resolves, with type FILE, to a sector of the device where the
    header persisted records the size asked for; every other name resolves
    as before.  The open-file table and the current directory are left
    alone. *)
Lemma Create_persisted (n : string) (initialSize : Z) (fs : FileSystem) :
  fst (Create (Some n) initialSize fs) = true →
  threadDirectory fs ≠ OpenFile.hdrSector (freeMapFile fs) →
  DirectoryFileSize
  ≤ FileHeader.numBytes (FileHeader_FetchFrom (threadDirectory fs) (disk fs)) →
  BitMap_Test (threadDirectory fs) (persistedFreeMap fs) = true →
  let created := snd (Create (Some n) initialSize fs) in
  let sector := Directory_Find n (currentDirectory created) in
  validSector sector = true
  ∧ Directory_GetEntryType n (currentDirectory created) = Some FILE_TYPE
  ∧ FileHeader.numBytes (FileHeader_FetchFrom sector (disk created)) = initialSize
  ∧ (∃ (freeMap : BitMap) (directory : Directory),
       writes (disk created)
       = writes (disk fs)
         ++ [WriteHeader sector (FileHeader_FetchFrom sector (disk created));
             WriteData (threadDirectory fs) (DataDirectory directory);
             WriteData (OpenFile.hdrSector (freeMapFile fs)) (DataBitMap freeMap)])
  ∧ (∀ n', n' ≠ n →
       Directory_FindIndex n' (currentDirectory created)
       = Directory_FindIndex n' (currentDirectory fs))
  ∧ openFilesTable created = openFilesTable fs
  ∧ threadDirectory created = threadDirectory fs.
Proof.
  intros Hok Hcur Hfit Hused. cbv zeta.
  destruct (Create_success n initialSize fs Hok)
    as (s & freeMap1 & directory1 & hdr & freeMap2 & Hn & Hv & Hfind & Hs & Hadd & Hal & ->).
  pose proof (BitMap_Find_range _ _ _ Hfind Hs) as Hrange.
  rewrite persistedFreeMap_length in Hrange.
  assert (validSector s = true) as Hvs.
  { unfold validSector. apply andb_true_iff. split; [apply Z.leb_le | apply Z.ltb_lt]; lia. }
  destruct (BitMap_Find_marks _ _ _ Hfind Hs) as [Hfree _].
  assert (s ≠ threadDirectory fs) as Hscur by congruence.
  assert (length directory1 = NumDirEntries) as Hlend.
  { rewrite <- (currentDirectory_length fs).
    rewrite <- (Directory_Add_length n s FILE_TYPE (currentDirectory fs)).
    by rewrite Hadd. }
  set (d0 := FileHeader_WriteBack s hdr (disk fs)).
  set (d1 := Directory_WriteBack directory1 (OpenFile_new (threadDirectory fs) (disk fs)) d0).
  set (d2 := BitMap_WriteBack freeMap2 (freeMapFile fs) d1).
  assert (currentDirectory (set_disk d2 fs) = directory1) as ->.
  { unfold currentDirectory, loadDirectory. cbn [set_disk disk threadDirectory].
    assert (OpenFile_new (threadDirectory fs) d2 = OpenFile_new (threadDirectory fs) (disk fs))
      as ->.
    { apply OpenFile_new_headers.
      unfold d2, d1, BitMap_WriteBack, Directory_WriteBack.
      rewrite !readHeader_transferData. unfold d0, FileHeader_WriteBack.
      by apply readHeader_writeHeader_ne. }
    unfold d2. rewrite Directory_FetchFrom_BitMap_WriteBack by done.
    unfold d1. by apply Directory_FetchFrom_WriteBack_whole. }
  destruct (Directory_Add_FindIndex _ _ _ _ _ Hadd) as [i Hidx].
  unfold Directory_Find, Directory_GetEntryType. rewrite Hidx.
  cbn [DirectoryEntry.sector DirectoryEntry.type set_disk disk openFilesTable threadDirectory].
  assert (FileHeader_FetchFrom s d2 = hdr) as ->.
  { unfold FileHeader_FetchFrom, d2, d1, BitMap_WriteBack, Directory_WriteBack.
    rewrite !readHeader_transferData. unfold d0, FileHeader_WriteBack.
    by rewrite readHeader_writeHeader_eq. }
  split_and!; try done.
  - by eapply FileHeader_Allocate_numBytes.
  - eexists _, _. unfold d2, d1, d0, BitMap_WriteBack, Directory_WriteBack,
      FileHeader_WriteBack, transferData, writeHeader, OpenFile_new.
    cbn [writes OpenFile.hdrSector]. by rewrite <- !app_assoc.
  - intros n' Hne. by eapply Directory_Add_other.
Qed.


(** X12. A file just created can be opened: when the current directory is
    not the free-map file itself, its file holds the whole table of entries
    and its sector is in use in the persisted map, and the table is
    consistent and has a free slot, [Open] of the name, right after the
    [Create] that succeeded, returns a valid handle whose slot references the
    sector of the new header. *)
Theorem Create_then_Open (n : string) (initialSize : Z) (fs : FileSystem) :
  fst (Create (Some n) initialSize fs) = true →
  threadDirectory fs ≠ OpenFile.hdrSector (freeMapFile fs) →
  DirectoryFileSize
  ≤ FileHeader.numBytes (FileHeader_FetchFrom (threadDirectory fs) (disk fs)) →
  BitMap_Test (threadDirectory fs) (persistedFreeMap fs) = true →
  tableConsistent fs →
  FindFreeSlot fs ≠ INVALID_FILE_HANDLE →
  let created := snd (Create (Some n) initialSize fs) in
  let opened := Open (Some n) created in
  IsValidHandle (fst opened) (snd opened) = true
  ∧ OpenFileTableEntry.sector (slot (fst opened) (snd opened))
    = Directory_Find n (currentDirectory created)
  ∧ disk (snd opened) = disk created.
Proof.
  intros Hok Hcur Hfit Hused Hc Hfree. cbv zeta.
  destruct (Create_persisted n initialSize fs Hok Hcur Hfit Hused)
    as (Hvs & _ & _ & _ & _ & Htable & _).
  destruct (Create_success n initialSize fs Hok) as (_ & _ & _ & _ & _ & Hn & _).
  set (created := snd (Create (Some n) initialSize fs)) in *.
  set (s := Directory_Find n (currentDirectory created)) in *.
  assert (s ≠ -1) as Hs.
  { intros Heq. rewrite Heq in Hvs. done. }
  assert (tableConsistent created) as Hc'.
  { intros i e. rewrite Htable. apply Hc. }
  assert (FindFreeSlot created = FindFreeSlot fs) as Hslot
    by (unfold FindFreeSlot; by rewrite Htable).
  destruct (list_find (λ e, OpenFileTableEntry.inUse e = true ∧ OpenFileTableEntry.sector e = s)
              (take MAX_OPEN_FILES (openFilesTable created))) as [[k e]|] eqn:Hopen.
  - assert (Open (Some n) created = (Z.of_nat k, created)) as ->.
    { unfold Open, GetCurrentDirectory. cbv zeta.
      fold (loadDirectory (threadDirectory created) (disk created)).
      fold (currentDirectory created). fold s.
      assert (nullOrEmpty (Some n) = false) as ->
        by (simpl; by apply bool_decide_eq_false).
      apply Z.eqb_neq in Hs as ->. by rewrite Hopen. }
    apply list_find_Some in Hopen as (Hk & [Hu Hsec] & _).
    apply lookup_take_Some in Hk as [Hk Hlt].
    destruct (Hc' k e Hlt Hk Hu) as [Hobj _].
    cbn [fst snd]. split_and!; [| | done].
    + unfold IsValidHandle. rewrite Nat2Z.id, Hk, Hu. simpl.
      rewrite bool_decide_eq_true_2 by done.
      destruct (Z.leb_spec 0 (Z.of_nat k)), (Z.ltb_spec (Z.of_nat k) (Z.of_nat MAX_OPEN_FILES));
        try done; lia.
    + unfold slot. by rewrite Nat2Z.id, Hk.
  - assert (notOpen s created) as Hnot.
    { intros j e Hj He Hu Hsec. apply list_find_None in Hopen.
      eapply Forall_lookup_1 in Hopen; [| by rewrite lookup_take_lt].
      by apply Hopen. }
    destruct (Open_new_slot n created Hn Hs Hnot)
      as (Hh & Hnew & _ & Hdisk & _ & Hvalid); [by rewrite Hslot |].
    rewrite Hh. split_and!; [done | | done].
    unfold slot. by rewrite Hnew.
Qed.

End Creating.

(** ** Directories: failure, and walking down and up *)

Section Walking.
Context `{M : Machine}.

(** X13. A [CreateDirectory] that returns failure has issued no device
    write, and the state is as it was. *)
Theorem CreateDirectory_failure_writes_nothing (name : string) (fs : FileSystem) :
  fst (CreateDirectory name fs) = false →
  writes (disk (snd (CreateDirectory name fs))) = writes (disk fs)
  ∧ snd (CreateDirectory name fs) = fs.
Proof.
  unfold CreateDirectory. cbv zeta.
  destruct (threadDirectory fs <? 0); [done |].
  destruct (negb (Directory_Find name _ =? -1)); [done |].
  destruct (BitMap_Find _) as [sector freeMap1].
  destruct (sector =? -1); [done |].
  destruct (Directory_Add name sector DIR_TYPE _)
    as [[] parentDirectory]; simpl negb; cbv iota; [| done].
  by destruct (FileHeader_Allocate freeMap1 DirectoryFileSize) as [[[] hdr] freeMap2].
Qed.

(** X20. [CreateDirectory] returns failure, and changes nothing, when the
    current-directory sector is negative or when the name is already in the
    current directory, be it the name of a file or of a directory. *)
Theorem CreateDirectory_existing_name_fails (name : string) (fs : FileSystem) :
  threadDirectory fs < 0 ∨ present name (currentDirectory fs) →
  CreateDirectory name fs = (false, fs).
Proof.
  unfold CreateDirectory. cbv zeta.
  fold (loadDirectory (threadDirectory fs) (disk fs)). fold (currentDirectory fs).
  fold (persistedFreeMap fs).
  destruct (Z.ltb_spec (threadDirectory fs) 0) as [Hneg | Hpos]; [done |].
  intros [Hneg | Hp]; [lia |].
  destruct (negb (Directory_Find name (currentDirectory fs) =? -1)); [done |].
  destruct (BitMap_Find (persistedFreeMap fs)) as [sector freeMap1].
  destruct (sector =? -1); [done |].
  by rewrite (Directory_Add_present _ _ _ _ Hp).
Qed.





End Walking.

(** ** Path components *)

Lemma strchr_Some (s before after : string) (c : Ascii.ascii) :
  strchr s c = Some (before, after) →
  s = before +:+ String c after ∧ strchr before c = None.
Proof.
  revert before after. induction s as [| a s IH]; intros before after; simpl; [done |].
  destruct (Ascii.eqb a c) eqn:Hac.
  - apply Ascii.eqb_eq in Hac as ->. by intros [= <- <-].
  - destruct (strchr s c) as [[b r]|]; [| done].
    intros [= <- <-]. destruct (IH b r eq_refl) as [-> Hnone].
    simpl. by rewrite Hac, Hnone.
Qed.

(** X15. [getNextPathComponent] cuts the path at its first '/': the
    component has no '/', and the component, a '/' and the rest make up the
    path again; without any '/' the component is the whole path and the rest
    is NULL. *)
Theorem getNextPathComponent_splits (path : string) :
  strchr (fst (getNextPathComponent path)) "/" = None
  ∧ match snd (getNextPathComponent path) with
    | Some rest => path = fst (getNextPathComponent path) +:+ String "/" rest
    | None => path = fst (getNextPathComponent path)
    end
  ∧ (snd (getNextPathComponent path) = None ↔ strchr path "/" = None).
Proof.
  unfold getNextPathComponent.
  destruct (strchr path "/") as [[component rest]|] eqn:Hsplit; simpl.
  - destruct (strchr_Some _ _ _ _ Hsplit) as [Hpath Hnone]. by split_and!.
  - by split_and!.
Qed.

(** ** The state the constructor leaves *)

Section Construction.
Context `{M : Machine}.

Lemma InitializeOpenFilesTable_lookup (i : nat) (e : OpenFileTableEntry.t) :
  InitializeOpenFilesTable !! i = Some e → e = OpenFileTableEntry.free.
Proof. unfold InitializeOpenFilesTable. by intros [-> _]%lookup_replicate. Qed.

(** X16. The constructor, with or without formatting, leaves a table of
    [MAX_OPEN_FILES] free slots, so that no handle is valid and the first
    slot is the one [FindFreeSlot] yields; the current directory is the
    root and the two system files sit at sectors 0 and 1.  Without
    formatting it issues no device write. *)
Theorem FileSystem_new_initial (format : bool) (d : Disk) (fs : FileSystem) :
  FileSystem_new format d = Some fs →
  openFilesTable fs = replicate MAX_OPEN_FILES OpenFileTableEntry.free
  ∧ (∀ h : FileHandle, IsValidHandle h fs = false)
  ∧ tableConsistent fs
  ∧ ((0 < MAX_OPEN_FILES)%nat → FindFreeSlot fs = 0)
  ∧ threadDirectory fs = DirectorySector
  ∧ OpenFile.hdrSector (freeMapFile fs) = FreeMapSector
  ∧ OpenFile.hdrSector (directoryFile fs) = DirectorySector
  ∧ (format = false → disk fs = d).
Proof.
  intros Hnew.
  assert (openFilesTable fs = InitializeOpenFilesTable
          ∧ threadDirectory fs = DirectorySector
          ∧ OpenFile.hdrSector (freeMapFile fs) = FreeMapSector
          ∧ OpenFile.hdrSector (directoryFile fs) = DirectorySector
          ∧ (format = false → disk fs = d)) as (Htable & Hdir & Hf & Hd & Hdisk).
  { unfold FileSystem_new in Hnew. destruct format.
    - destruct (FileHeader_Allocate _ FreeMapFileSize) as [[[] mapHdr] m1];
        simpl in Hnew; [| done].
      destruct (FileHeader_Allocate m1 DirectoryFileSize) as [[[] dirHdr] m2];
        simpl in Hnew; [| done].
      by injection Hnew as <-.
    - by injection Hnew as <-. }
  split_and!; try done.
  - intros h. apply IsValidHandle_false_iff. unfold slot. rewrite Htable.
    destruct (InitializeOpenFilesTable !! Z.to_nat h) as [e|] eqn:He; simpl.
    + apply InitializeOpenFilesTable_lookup in He as ->. by do 2 right; left.
    + by do 2 right; left.
  - intros i e Hi He Hu. rewrite Htable in He.
    by apply InitializeOpenFilesTable_lookup in He as ->.
  - intros Hmax. unfold FindFreeSlot. rewrite Htable. unfold InitializeOpenFilesTable.
    destruct MAX_OPEN_FILES as [| k]; [lia |]. done.
Qed.

End Construction.

(** ** Occupancy of the table, and guards on the current directory *)

Section Occupancy.
Context `{M : Machine}.

(** The number of elements satisfying [P] when one element changes. *)
Lemma filter_insert_length {A} (P : A → Prop) `{!∀ x, Decision (P x)}
  (l : list A) (i : nat) (x y : A) :
  l !! i = Some x →
  (length (filter P (<[i := y]> l)) + (if decide (P x) then 1 else 0)
   = length (filter P l) + (if decide (P y) then 1 else 0))%nat.
Proof.
  revert i. induction l as [| a l IH]; intros [| i] Hi; try done.
  - injection Hi as ->. change (<[0%nat := y]> (x :: l)) with (y :: l).
    rewrite !(filter_cons P). repeat case_decide; simpl; lia.
  - change (<[S i := y]> (a :: l)) with (a :: <[i := y]> l).
    rewrite !(filter_cons P). specialize (IH i Hi).
    repeat case_decide; simpl in *; lia.
Qed.

(** X17. [Open] into a free slot raises the number of slots in use by
    one. *)
Theorem occupancy_Open (n : string) (fs : FileSystem) :
  n ≠ EmptyString →
  Directory_Find n (currentDirectory fs) ≠ -1 →
  notOpen (Directory_Find n (currentDirectory fs)) fs →
  FindFreeSlot fs ≠ INVALID_FILE_HANDLE →
  occupancy (snd (Open (Some n) fs)) = S (occupancy fs).
Proof.
  intros Hn Hs Hnot Hfree.
  destruct (Open_cases (Some n) fs)
    as [Hsame | (n' & i & e & [= <-] & _ & _ & Hlt & He & Hu & ->)].
  - destruct (Open_new_slot n fs Hn Hs Hnot Hfree)
      as (_ & Hnew & _ & _ & _ & Hvalid).
    rewrite Hsame in Hvalid.
    destruct (FindFreeSlot_cases fs) as [[? _] | (i & e & Hi & _ & He & Hu & _)];
      [done |].
    destruct (IsValidHandle_slot _ _ Hvalid) as (e' & _ & He' & _ & _).
    unfold IsValidHandle in Hvalid. rewrite He' in Hvalid.
    rewrite Hi, Nat2Z.id in He'. replace e' with e in * by congruence.
    rewrite Hu, andb_false_r in Hvalid. done.
  - unfold occupancy. cbn [snd set_table openFilesTable].
    pose proof (filter_insert_length
                  (λ e, OpenFileTableEntry.inUse e = true) (openFilesTable fs) i e
                  (OpenFileTableEntry.mk true
                     (Some (OpenFile_new (Directory_Find n (currentDirectory fs)) (disk fs)))
                     (Directory_Find n (currentDirectory fs)) (String.substring 0 31 n) 0)
                  He) as Hcount.
    rewrite decide_False, decide_True in Hcount by (done || by rewrite Hu). lia.
Qed.

(** X21. [Close] of a valid handle lowers the number of slots in use by
    one. *)
Theorem occupancy_Close (h : FileHandle) (fs : FileSystem) :
  IsValidHandle h fs = true → S (occupancy (Close h fs)) = occupancy fs.
Proof.
  intros Hv. destruct (IsValidHandle_slot h fs Hv) as (e & f & He & _ & _).
  assert (OpenFileTableEntry.inUse e = true) as Hu.
  { unfold IsValidHandle in Hv. rewrite He in Hv.
    apply andb_true_iff in Hv as [_ Hv]. by apply andb_true_iff in Hv as [Hv _]. }
  unfold Close. rewrite Hv. unfold occupancy. cbn [negb set_table openFilesTable].
  pose proof (filter_insert_length
                (λ e, OpenFileTableEntry.inUse e = true) (openFilesTable fs)
                (Z.to_nat h) e OpenFileTableEntry.free He) as Hcount.
  rewrite decide_True, decide_False in Hcount by done. lia.
Qed.

(** X18. [Open] then [Close] of the handle it returned gives the state
    back, when the slot taken had the values of a free slot (as every slot
    has that the constructor or [Close] left). *)
Theorem Open_then_Close (n : string) (fs : FileSystem) :
  n ≠ EmptyString →
  Directory_Find n (currentDirectory fs) ≠ -1 →
  notOpen (Directory_Find n (currentDirectory fs)) fs →
  FindFreeSlot fs ≠ INVALID_FILE_HANDLE →
  openFilesTable fs !! Z.to_nat (FindFreeSlot fs) = Some OpenFileTableEntry.free →
  Close (fst (Open (Some n) fs)) (snd (Open (Some n) fs)) = fs.
Proof.
  intros Hn Hs Hnot Hfree Hslot.
  destruct (Open_new_slot n fs Hn Hs Hnot Hfree)
    as (Hh & _ & _ & _ & _ & Hvalid).
  rewrite Hh. unfold Close. rewrite Hvalid. cbn [negb].
  destruct (Open_cases (Some n) fs)
    as [Hsame | (n' & i & e & [= <-] & _ & Hi & Hlt & He & Hu & Hopen)].
  - rewrite Hsame in Hvalid |- *.
    destruct (IsValidHandle_slot _ _ Hvalid) as (e' & _ & He' & _ & _).
    unfold IsValidHandle in Hvalid. rewrite He' in Hvalid.
    replace e' with OpenFileTableEntry.free in * by congruence.
    by rewrite andb_false_r in Hvalid.
  - rewrite Hopen. cbn [snd set_table openFilesTable disk freeMapFile directoryFile
                          currentDirectorySector threadDirectory].
    rewrite Hi, Nat2Z.id in *. rewrite list_insert_insert_eq.
    rewrite list_insert_id by done. by destruct fs.
Qed.

(** X19. With a current-directory sector outside the device, [Create],
    [Remove] and [ChangeDirectory] return FALSE and change nothing,
    whatever the name. *)
Theorem invalid_current_directory_is_refused (name : option string) (size : Z)
  (fs : FileSystem) :
  validSector (threadDirectory fs) = false →
  Create name size fs = (false, fs)
  ∧ Remove name fs = (false, fs)
  ∧ ChangeDirectory name fs = (false, fs).
Proof.
  intros Hv. unfold Create, Remove, ChangeDirectory, GetCurrentDirectory.
  destruct name as [n|]; [| done]. rewrite Hv. simpl negb. cbv iota.
  destruct (nullOrEmpty (Some n)); [done |].
  by destruct (size <? 0).
Qed.

End Occupancy.

(** ** More of the operations at work on the concrete machine *)

Section MoreRuns.
#[local] Existing Instance nachos.
#[local] Existing Instance plainIO.

Example close_all_closes :
  IsValidHandle 0 withAOpen = true
  ∧ CloseAll withAOpen = withA
  ∧ Close 0 withAOpen = withA
  ∧ Close 0 withA = withA.
Proof. by vm_compute. Qed.

Example path_components :
  getNextPathComponent "a/b/c" = ("a", Some "b/c")
  ∧ getNextPathComponent "b/c" = ("b", Some "c")
  ∧ getNextPathComponent "c" = ("c", None)
  ∧ getNextPathComponent "/x" = (EmptyString, Some "x").
Proof. by vm_compute. Qed.

Example remove_leaves_handle_valid :
  fst (Remove (Some "a") withAOpen) = true
  ∧ IsValidHandle 0 (snd (Remove (Some "a") withAOpen)) = true
  ∧ fst (Open (Some "a") (snd (Remove (Some "a") withAOpen))) = INVALID_FILE_HANDLE.
Proof. by vm_compute. Qed.

(** A directory is transferred through the header of its file.  At sector
    1023 of the device of [withA] no header was written, so the file there
    has length 0: [Create] succeeds and reserves two sectors, and nothing of
    the directory is stored, so that neither [Open] nor [Remove] finds the
    name. *)
Example directory_through_a_blank_header :
  let fs := SetCurrentDirectory 1023 withA in
  let created := snd (Create (Some "b") 10 fs) in
  FileHeader.numBytes (FileHeader_FetchFrom 1023 (disk fs)) = 0
  ∧ fst (Create (Some "b") 10 fs) = true
  ∧ Directory_entries (currentDirectory created) = []
  ∧ fst (Open (Some "b") created) = INVALID_FILE_HANDLE
  ∧ Remove (Some "b") created = (false, created)
  ∧ BitMap_NumClear (persistedFreeMap fs) = 1017
  ∧ BitMap_NumClear (persistedFreeMap created) = 1015.
Proof. by vm_compute. Qed.

(** The same through the operations alone: [Remove(".")] in the root
    releases the sector of the root, [Create("x", 0)] takes it for the header
    of "x", of length 0, and the root is from then on read and written
    through that header. *)
Example directory_header_taken_by_a_file :
  let fs1 := snd (Remove (Some ".") formatted) in
  let fs2 := snd (Create (Some "x") 0 fs1) in
  let fs3 := snd (Create (Some "y") 10 fs2) in
  let fs4 := snd (CreateDirectory "d" fs2) in
  fst (Remove (Some ".") formatted) = true
  ∧ fst (Create (Some "x") 0 fs1) = true
  ∧ FileHeader.numBytes (FileHeader_FetchFrom 1 (disk fs2)) = 0
  ∧ Directory_entries (currentDirectory fs2) = []
  ∧ fst (Create (Some "y") 10 fs2) = true
  ∧ Remove (Some "y") fs3 = (false, fs3)
  ∧ fst (CreateDirectory "d" fs2) = true
  ∧ ChangeDirectory (Some "d") fs4 = (false, fs4).
Proof. by vm_compute. Qed.

(** The tables of the sample states. *)
Lemma formatted_tableConsistent : tableConsistent formatted.
Proof.
  intros i e Hi He Hu. exfalso.
  change (openFilesTable formatted) with (replicate 10 OpenFileTableEntry.free) in He.
  by apply lookup_replicate in He as [-> _].
Qed.

(** In [withAOpen] slot 0, and no other, is in use, and it has its I/O
    object. *)
Lemma withAOpen_one_slot (i : nat) (e : OpenFileTableEntry.t) :
  openFilesTable withAOpen !! i = Some e →
  OpenFileTableEntry.inUse e = true →
  i = 0%nat ∧ OpenFileTableEntry.openFile e ≠ None.
Proof.
  intros He Hu.
  destruct i as [| i]; [vm_compute in He; by injection He as <- |].
  exfalso.
  do 9 (destruct i as [| i]; [vm_compute in He; injection He as <-; discriminate Hu |]).
  vm_compute in He. discriminate He.
Qed.

Lemma withAOpen_tableConsistent : tableConsistent withAOpen.
Proof.
  intros i e _ He Hu. destruct (withAOpen_one_slot i e He Hu) as [-> Hobj].
  split; [done |]. intros j e' _ He' Hu' _.
  by destruct (withAOpen_one_slot j e' He' Hu').
Qed.

Lemma allOpen_full (j : nat) (e : OpenFileTableEntry.t) :
  openFilesTable allOpen !! j = Some e →
  OpenFileTableEntry.inUse e = true ∧ OpenFileTableEntry.sector e = 77.
Proof.
  unfold allOpen. cbn [set_table openFilesTable].
  by intros [-> _]%lookup_replicate.
Qed.

Lemma withA_notOpen (s : Z) : notOpen s withA.
Proof.
  intros i e Hi He Hu. exfalso.
  change (openFilesTable withA) with (replicate 10 OpenFileTableEntry.free) in He.
  by apply lookup_replicate in He as [-> _].
Qed.

(** *** The further theorems at concrete inputs *)

Lemma Close_releases_slot_witness :
  IsValidHandle 0 withAOpen = true
  ∧ openFilesTable (Close 0 withAOpen) !! Z.to_nat 0 = Some OpenFileTableEntry.free
  ∧ (∀ j : nat, j ≠ Z.to_nat 0 →
       openFilesTable (Close 0 withAOpen) !! j = openFilesTable withAOpen !! j)
  ∧ disk (Close 0 withAOpen) = disk withAOpen
  ∧ threadDirectory (Close 0 withAOpen) = threadDirectory withAOpen
  ∧ IsValidHandle 0 (Close 0 withAOpen) = false.
Proof.
  split; [by vm_compute |]. apply Close_releases_slot. by vm_compute.
Defined.

Lemma Open_fills_first_free_slot_witness :
  let s := Directory_Find "a" (currentDirectory withA) in
  let h := FindFreeSlot withA in
  let fs' := snd (Open (Some "a") withA) in
  (s = 5 ∧ h = 0)
  ∧ fst (Open (Some "a") withA) = h
  ∧ openFilesTable fs' !! Z.to_nat h
    = Some (OpenFileTableEntry.mk true (Some (OpenFile_new s (disk withA))) s
              (String.substring 0 31 "a") 0)
  ∧ (∀ j : nat, j ≠ Z.to_nat h → openFilesTable fs' !! j = openFilesTable withA !! j)
  ∧ disk fs' = disk withA
  ∧ threadDirectory fs' = threadDirectory withA
  ∧ IsValidHandle h fs' = true.
Proof.
  split; [by vm_compute |].
  apply (Open_fills_first_free_slot "a" withA);
    [done | by vm_compute | apply withA_notOpen | by vm_compute].
Defined.

Lemma Open_table_full_witness :
  Open (Some "a") allOpen = (INVALID_FILE_HANDLE, allOpen).
Proof.
  apply Open_table_full.
  - intros j e _ He Hu Hs. apply allOpen_full in He as [_ He].
    rewrite He in Hs. revert Hs. by vm_compute.
  - intros j e _ He. by apply allOpen_full in He as [He _].
Defined.

Lemma tableConsistent_kept_witness :
  (IsValidHandle 0 withAOpen = true ∧ occupancy withAOpen = 1%nat)
  ∧ tableConsistent withAOpen
  ∧ (∀ name, tableConsistent (snd (Open name withAOpen)))
  ∧ (∀ h, tableConsistent (Close h withAOpen))
  ∧ tableConsistent (CloseAll withAOpen)
  ∧ (∀ h buf n, tableConsistent (snd (Read h buf n withAOpen)))
  ∧ (∀ h buf n, tableConsistent (snd (Write h buf n withAOpen)))
  ∧ (∀ h buf n pos, tableConsistent (snd (ReadAt h buf n pos withAOpen)))
  ∧ (∀ h buf n pos, tableConsistent (snd (WriteAt h buf n pos withAOpen))).
Proof.
  split; [by vm_compute |].
  split; [exact withAOpen_tableConsistent |].
  apply tableConsistent_kept. exact withAOpen_tableConsistent.
Defined.

Lemma sequential_transfer_advances_cursor_witness :
  IsValidHandle 0 withAOpen = true
  ∧ fst (fst (Read 0 (Some []) 8 withAOpen)) = 8
  ∧ OpenFileTableEntry.currentPosition (slot 0 (snd (Read 0 (Some []) 8 withAOpen)))
    = int_add (OpenFileTableEntry.currentPosition (slot 0 withAOpen))
              (fst (fst (Read 0 (Some []) 8 withAOpen)))
  ∧ OpenFileTableEntry.currentPosition (slot 0 (snd (Write 0 (Some []) 8 withAOpen)))
    = int_add (OpenFileTableEntry.currentPosition (slot 0 withAOpen))
              (fst (Write 0 (Some []) 8 withAOpen)).
Proof.
  split; [by vm_compute |]. split; [by vm_compute |].
  destruct (sequential_transfer_advances_cursor 0 [] 8 withAOpen) as [[Hr _] [Hw _]];
    [by vm_compute |].
  split; [exact Hr | exact Hw].
Defined.

Lemma Remove_effects_witness :
  fst (Remove (Some "a") withAOpen) = true
  ∧ headers (disk (snd (Remove (Some "a") withAOpen))) = headers (disk withAOpen)
  ∧ openFilesTable (snd (Remove (Some "a") withAOpen)) = openFilesTable withAOpen.
Proof.
  split; [by vm_compute |].
  destruct (Remove_effects "a" withAOpen) as (_ & Hh & Ht & _); [by vm_compute |].
  split; [exact Hh | exact Ht].
Defined.


Lemma Create_then_Open_witness :
  fst (Create (Some "a") 100 formatted) = true
  ∧ FindFreeSlot formatted ≠ INVALID_FILE_HANDLE
  ∧ DirectoryFileSize
    ≤ FileHeader.numBytes (FileHeader_FetchFrom (threadDirectory formatted) (disk formatted))
  ∧ BitMap_Test (threadDirectory formatted) (persistedFreeMap formatted) = true
  ∧ IsValidHandle (fst (Open (Some "a") withA)) (snd (Open (Some "a") withA)) = true
  ∧ OpenFileTableEntry.sector (slot (fst (Open (Some "a") withA)) (snd (Open (Some "a") withA)))
    = Directory_Find "a" (currentDirectory withA)
  ∧ disk (snd (Open (Some "a") withA)) = disk withA.
Proof.
  split; [by vm_compute |]. split; [by vm_compute |].
  split; [by vm_compute |]. split; [by vm_compute |].
  apply (Create_then_Open "a" 100 formatted);
    [by vm_compute | by vm_compute | by vm_compute | by vm_compute
     | exact formatted_tableConsistent | by vm_compute].
Defined.


Lemma FileSystem_new_initial_witness :
  FileSystem_new false (disk formatted) = Some formatted
  ∧ openFilesTable formatted = replicate MAX_OPEN_FILES OpenFileTableEntry.free
  ∧ (∀ h : FileHandle, IsValidHandle h formatted = false)
  ∧ tableConsistent formatted
  ∧ ((0 < MAX_OPEN_FILES)%nat → FindFreeSlot formatted = 0)
  ∧ threadDirectory formatted = DirectorySector
  ∧ OpenFile.hdrSector (freeMapFile formatted) = FreeMapSector
  ∧ OpenFile.hdrSector (directoryFile formatted) = DirectorySector
  ∧ (false = false → disk formatted = disk formatted).
Proof.
  split; [by vm_compute |].
  apply (FileSystem_new_initial false (disk formatted)). by vm_compute.
Defined.

Lemma Open_then_Close_witness :
  Close (fst (Open (Some "a") withA)) (snd (Open (Some "a") withA)) = withA.
Proof.
  apply (Open_then_Close "a" withA);
    [done | by vm_compute | apply withA_notOpen | by vm_compute | by vm_compute].
Defined.

Lemma invalid_current_directory_is_refused_witness :
  let lost := SetCurrentDirectory (-1) withA in
  validSector (threadDirectory lost) = false
  ∧ Create (Some "b") 10 lost = (false, lost)
  ∧ Remove (Some "a") lost = (false, lost)
  ∧ ChangeDirectory (Some ".") lost = (false, lost).
Proof.
  split; [by vm_compute |].
  apply (invalid_current_directory_is_refused (Some "b") 10 (SetCurrentDirectory (-1) withA)).
  by vm_compute.
Defined.

Lemma CreateDirectory_failure_writes_nothing_witness :
  fst (CreateDirectory "a" withA) = false
  ∧ writes (disk (snd (CreateDirectory "a" withA))) = writes (disk withA)
  ∧ snd (CreateDirectory "a" withA) = withA.
Proof.
  split; [by vm_compute |]. apply CreateDirectory_failure_writes_nothing. by vm_compute.
Defined.

Lemma CreateDirectory_existing_name_fails_witness :
  present "a" (currentDirectory withA)
  ∧ CreateDirectory "a" withA = (false, withA).
Proof.
  assert (present "a" (currentDirectory withA)) as Hp
    by (vm_compute; eexists; reflexivity).
  split; [exact Hp |]. apply CreateDirectory_existing_name_fails. by right.
Defined.

Lemma occupancy_Open_witness :
  occupancy withA = 0%nat
  ∧ occupancy (snd (Open (Some "a") withA)) = S (occupancy withA).
Proof.
  split; [by vm_compute |].
  apply (occupancy_Open "a" withA);
    [done | by vm_compute | apply withA_notOpen | by vm_compute].
Defined.

Lemma occupancy_Close_witness :
  IsValidHandle 0 withAOpen = true
  ∧ S (occupancy (Close 0 withAOpen)) = occupancy withAOpen.
Proof.
  split; [by vm_compute |]. apply occupancy_Close. by vm_compute.
Defined.

End MoreRuns.
